(** * Pigweed: pw_rpc server writer and channel, pw_transfer client,
      pw_persistent_ram container — a shallow embedding and its properties.

    Integers of the C++ code ([uint32_t], [size_t], [uint16_t], bytes) are
    modelled as [Z]; every method that mutates an object takes the object (and
    the objects it reaches through references) and returns the new versions. *)

From Stdlib Require Import ZArith List Bool Lia.
Import ListNotations.
Open Scope Z_scope.

(** ** pw::Status *)

(** Modelled from the spec: [pw::Status] (pw_status is not among the
    sources): the error kinds of section 6 among the canonical status codes,
    each with its numeric code. *)
Inductive Status : Type :=
| OK | CANCELLED | UNKNOWN | INVALID_ARGUMENT | DEADLINE_EXCEEDED | NOT_FOUND
| ALREADY_EXISTS | PERMISSION_DENIED | RESOURCE_EXHAUSTED | FAILED_PRECONDITION
| ABORTED | OUT_OF_RANGE | UNIMPLEMENTED | INTERNAL | UNAVAILABLE | DATA_LOSS
| UNAUTHENTICATED.

Definition Status_code (s : Status) : Z :=
  match s with
  | OK => 0 | CANCELLED => 1 | UNKNOWN => 2 | INVALID_ARGUMENT => 3
  | DEADLINE_EXCEEDED => 4 | NOT_FOUND => 5 | ALREADY_EXISTS => 6
  | PERMISSION_DENIED => 7 | RESOURCE_EXHAUSTED => 8
  | FAILED_PRECONDITION => 9 | ABORTED => 10 | OUT_OF_RANGE => 11
  | UNIMPLEMENTED => 12 | INTERNAL => 13 | UNAVAILABLE => 14
  | DATA_LOSS => 15 | UNAUTHENTICATED => 16
  end.

Definition Status_ok (s : Status) : bool :=
  match s with OK => true | _ => false end.

(** ** Spans: a pointer and a length.  [{}] is the null, empty span. *)

(** Modelled from the spec: [span<std::byte>] (pw_span is not among the
    sources), a view of [size] bytes starting at address [data]. *)
Record span : Type := mk_span { data : Z; size : Z }.

Definition empty_span : span := {| data := 0; size := 0 |}.

Definition span_empty (s : span) : bool := size s =? 0.

(** [s.subspan(offset)]: the suffix of [s] that starts [offset] bytes in. *)
Definition subspan (s : span) (offset : Z) : span :=
  {| data := data s + offset; size := size s - offset |}.

(** ** Little-endian base-128 integers of the wire format *)

Module varint.

(** Modelled from the spec: the little-endian varints of sections 4.1 and 6
    (pw_varint is not among the sources).  Seven bits per byte, least
    significant group first; every byte but the last has its top bit set.
    Ten bytes hold any 64-bit value. *)
Fixpoint encode_groups (fuel : nat) (v : Z) : list Z :=
  match fuel with
  | O => []
  | S fuel' =>
      if v <? 128 then [v]
      else Z.lor (Z.land v 127) 128 :: encode_groups fuel' (Z.shiftr v 7)
  end.

Definition kMaxVarint64SizeBytes : nat := 10.

Definition Encode (v : Z) : list Z := encode_groups kMaxVarint64SizeBytes v.

Definition EncodedSize (v : Z) : Z := Z.of_nat (length (Encode v)).

End varint.

(** ** The RPC packet and its codec *)

Module Packet.

(** Modelled from the spec: the packet kinds and their wire values (section
    6), together with [PacketType::RPC], which the sources name and which is
    the first enumerator. *)
Inductive PacketType : Type :=
| RPC | Request | Response | ClientStream | ServerStream | ClientError
| ServerError | ClientRequestCompletion.

Definition PacketType_value (t : PacketType) : Z :=
  match t with
  | RPC => 0 | Request => 0 | Response => 1 | ClientStream => 2
  | ServerStream => 3 | ClientError => 4 | ServerError => 5
  | ClientRequestCompletion => 6
  end.

Record t : Type := Packet {
  type : PacketType;
  channel_id : Z;
  service_id : Z;
  method_id : Z;
  payload : list Z;
  status : Status
}.

Definition set_payload (p : t) (bytes : list Z) : t :=
  {| type := type p; channel_id := channel_id p; service_id := service_id p;
     method_id := method_id p; payload := bytes; status := status p |}.

(** Modelled from the spec: the field tags of the frame (section 6) and the
    tag-length-value layout: a key made of the tag and the wire kind, then a
    varint, or a varint length and the bytes. *)
Definition kTypeTag : Z := 1.
Definition kChannelIdTag : Z := 2.
Definition kServiceIdTag : Z := 3.
Definition kMethodIdTag : Z := 4.
Definition kPayloadTag : Z := 5.
Definition kStatusTag : Z := 6.

Definition kVarintWire : Z := 0.
Definition kDelimitedWire : Z := 2.

Definition FieldKey (tag wire : Z) : list Z :=
  varint.Encode (Z.lor (Z.shiftl tag 3) wire).

Definition WriteVarintField (tag v : Z) : list Z :=
  FieldKey tag kVarintWire ++ varint.Encode v.

Definition WriteBytesField (tag : Z) (bytes : list Z) : list Z :=
  FieldKey tag kDelimitedWire
    ++ varint.Encode (Z.of_nat (length bytes)) ++ bytes.

(** Modelled from the spec: [Packet::Encode] and
    [Packet::MinEncodedSizeBytes] (packet.cc is not among the sources).
    Section 4.1: numeric fields are varint-encoded, the payload is
    length-prefixed, and the six required fields (type, channel, service,
    method, payload, status) are all emitted. *)
Definition EncodedBytes (p : t) : list Z :=
  WriteVarintField kTypeTag (PacketType_value (type p))
    ++ WriteVarintField kChannelIdTag (channel_id p)
    ++ WriteVarintField kServiceIdTag (service_id p)
    ++ WriteVarintField kMethodIdTag (method_id p)
    ++ WriteBytesField kPayloadTag (payload p)
    ++ WriteVarintField kStatusTag (Status_code (status p)).

Definition EncodedSize (p : t) : Z := Z.of_nat (length (EncodedBytes p)).

(** Modelled from the spec: [Packet::Encode(buffer)] serializes the packet
    into the prefix of a buffer of [buffer_size] bytes, and fails when the
    frame does not fit. *)
Definition Encode (buffer_size : Z) (p : t) : Status * Z :=
  if EncodedSize p <=? buffer_size then (OK, EncodedSize p)
  else (RESOURCE_EXHAUSTED, 0).

(** Modelled from the spec: [Packet::MinEncodedSizeBytes], the encoded size
    of the packet's required fields with a zero-length payload: key and
    value of type, channel, service and method, the payload key with its
    zero length, key and value of the status. *)
Definition MinEncodedSizeBytes (p : t) : Z :=
  2 (* type *)
  + (1 + varint.EncodedSize (channel_id p))
  + (1 + varint.EncodedSize (service_id p))
  + (1 + varint.EncodedSize (method_id p))
  + 2 (* payload key and length *)
  + 2 (* status *).

End Packet.

(** [kTestPacket] and [kReservedSize] of channel_test.cc. *)
Definition kTestPacket : Packet.t :=
  Packet.Packet Packet.RPC 1 42 100 [] OK.

Definition kReservedSize : Z :=
  2 (* type *) + 2 (* channel *) + 2 (* service *) + 2 (* method *)
  + 2 (* payload key *) + 2 (* status *).

(** ** Channel and ChannelOutput *)

Module Channel.

(** A [ChannelOutput] owns the transmit buffer; [sent] logs, oldest first,
    the frames handed to [SendAndReleaseBuffer]. *)
Record ChannelOutput : Type := {
  buffer : span;
  sent : list (list Z)
}.

Record t : Type := { id : Z; output : ChannelOutput }.

(** [Channel::OutputBuffer] wraps the span it was given. *)
Record OutputBuffer : Type := { buffer_ : span }.

Definition OutputBuffer_default : OutputBuffer := {| buffer_ := empty_span |}.

Definition SendAndReleaseBuffer (o : ChannelOutput) (frame : list Z)
  : ChannelOutput :=
  {| buffer := buffer o; sent := sent o ++ [frame] |}.

(** Modelled from the spec: [Channel::AcquireBuffer] (channel.cc is not
    among the sources) returns the whole buffer of the output. *)
Definition AcquireBuffer (c : t) : OutputBuffer :=
  {| buffer_ := buffer (output c) |}.

(** Modelled from the spec: [OutputBuffer::payload(packet)] is the sub-span
    left after reserving the packet's minimum encoded size, and the empty
    span when the buffer is smaller than that. *)
Definition payload (b : OutputBuffer) (p : Packet.t) : span :=
  let reserved_size := Packet.MinEncodedSizeBytes p in
  if reserved_size <=? size (buffer_ b) then subspan (buffer_ b) reserved_size
  else empty_span.

(** Modelled from the spec: [Channel::Send(buffer, packet)] serializes the
    packet into the buffer's prefix and hands the frame to the output;
    [Internal] when the packet does not fit.  The output buffer object is
    left empty either way. *)
Definition Send (c : t) (b : OutputBuffer) (p : Packet.t)
  : Status * t * OutputBuffer :=
  let encoded := Packet.Encode (size (buffer_ b)) p in
  if Status_ok (fst encoded) then
    (OK,
     {| id := id c;
        output := SendAndReleaseBuffer (output c) (Packet.EncodedBytes p) |},
     OutputBuffer_default)
  else (INTERNAL, c, OutputBuffer_default).

End Channel.

(** [TestOutput<N>] of the tests: an output whose buffer holds [N] bytes and
    lives at address [addr]. *)
Definition TestOutput (addr N : Z) : Channel.ChannelOutput :=
  {| Channel.buffer := {| data := addr; size := N |}; Channel.sent := [] |}.

(** ** BaseServerWriter (base_server_writer.cc) *)

Module BaseServerWriter.

Inductive State : Type := kOpen | kClosed.

(** [ServerCall]: the channel is held by reference and is threaded through
    the operations below; the call keeps the service and method ids. *)
Record ServerCall : Type := {
  service_id : Z;
  method_id : Z
}.

Record t : Type := {
  call_ : ServerCall;
  response_ : Channel.OutputBuffer;
  state_ : State
}.

Definition open (w : t) : bool :=
  match state_ w with kOpen => true | kClosed => false end.

(** [operator=(BaseServerWriter&& other)] between two distinct objects:
    returns the new [*this] and the new [other].  [operator_assign] below
    makes the same stores on writers in memory, where [this] and [other] may
    also be one object. *)
Definition move_assign (this other : t) : t * t :=
  let this' := {| call_ := call_ other;
                  response_ := response_ other;
                  state_ := state_ other |} in
  let other' := {| call_ := call_ other;
                   response_ := response_ other;
                   state_ := kClosed |} in
  (this', other').

(** Writers in memory, by address. *)
Definition Memory : Type := Z -> option t.

Definition write (m : Memory) (a : Z) (w : t) : Memory :=
  fun x => if x =? a then Some w else m x.

(** [operator=(BaseServerWriter&& other)] on the writers at the addresses
    [this] and [other], which may be the same address: one store for each
    statement, each reading the memory the statement before it left.
    [None] when no writer lives at one of the addresses. *)
Definition operator_assign (m : Memory) (this other : Z) : option Memory :=
  match m this, m other with
  | Some t0, Some o0 =>
      (* call_ = std::move(other.call_); *)
      let m1 := write m this {| call_ := call_ o0;
                                response_ := response_ t0;
                                state_ := state_ t0 |} in
      match m1 this, m1 other with
      | Some t1, Some o1 =>
          (* response_ = std::move(other.response_); *)
          let m2 := write m1 this {| call_ := call_ t1;
                                     response_ := response_ o1;
                                     state_ := state_ t1 |} in
          match m2 this, m2 other with
          | Some t2, Some o2 =>
              (* state_ = std::move(other.state_); *)
              let m3 := write m2 this {| call_ := call_ t2;
                                         response_ := response_ t2;
                                         state_ := state_ o2 |} in
              match m3 other with
              | Some o3 =>
                  (* other.state_ = kClosed; *)
                  Some (write m3 other {| call_ := call_ o3;
                                          response_ := response_ o3;
                                          state_ := kClosed |})
              | None => None
              end
          | _, _ => None
          end
      | _, _ => None
      end
  | _, _ => None
  end.

Definition Finish (w : t) (c : Channel.t) : t * Channel.t :=
  if negb (open w) then (w, c)
  else
    (* TODO(hepler): Send a control packet indicating that the stream has
       terminated. *)
    ({| call_ := call_ w; response_ := response_ w; state_ := kClosed |}, c).

Definition packet (w : t) (c : Channel.t) (payload : list Z) : Packet.t :=
  Packet.Packet Packet.RPC (Channel.id c) (service_id (call_ w))
                (method_id (call_ w)) payload OK.

Definition AcquirePayloadBuffer (w : t) (c : Channel.t) : span * t :=
  if negb (open w) then (empty_span, w)
  else
    let response := Channel.AcquireBuffer c in
    (Channel.payload response (packet w c []),
     {| call_ := call_ w; response_ := response; state_ := state_ w |}).

Definition ReleasePayloadBuffer (w : t) (c : Channel.t) (payload : list Z)
  : Status * t * Channel.t :=
  if negb (open w) then (FAILED_PRECONDITION, w, c)
  else
    match Channel.Send c (response_ w) (packet w c payload) with
    | (st, c', response) =>
        (st, {| call_ := call_ w; response_ := response;
                state_ := state_ w |}, c')
    end.

(** Sequences of calls on one writer, for stating what holds of every
    later call. *)
Inductive Op : Type :=
| OpFinish
| OpAcquirePayloadBuffer
| OpReleasePayloadBuffer (payload : list Z).

Inductive Ret : Type :=
| RetVoid
| RetSpan (s : span)
| RetStatus (st : Status).

Definition call_op (w : t) (c : Channel.t) (o : Op) : Ret * t * Channel.t :=
  match o with
  | OpFinish => let '(w', c') := Finish w c in (RetVoid, w', c')
  | OpAcquirePayloadBuffer =>
      let '(s, w') := AcquirePayloadBuffer w c in (RetSpan s, w', c)
  | OpReleasePayloadBuffer payload =>
      let '(st, w', c') := ReleasePayloadBuffer w c payload in
      (RetStatus st, w', c')
  end.

Fixpoint call_ops (w : t) (c : Channel.t) (ops : list Op)
  : list Ret * t * Channel.t :=
  match ops with
  | [] => ([], w, c)
  | o :: ops' =>
      let '(r, w1, c1) := call_op w c o in
      let '(rs, w2, c2) := call_ops w1 c1 ops' in
      (r :: rs, w2, c2)
  end.

(** What each call returns on a closed writer. *)
Definition closed_ret (o : Op) : Ret :=
  match o with
  | OpFinish => RetVoid
  | OpAcquirePayloadBuffer => RetSpan empty_span
  | OpReleasePayloadBuffer _ => RetStatus FAILED_PRECONDITION
  end.

End BaseServerWriter.

(** ** pw_transfer client (pw_transfer/client.h) *)

Module transfer.

Inductive ProtocolVersion : Type := kUnknown | kLegacy | kVersionTwo.

Definition kLatest : ProtocolVersion := kVersionTwo.

(** Modelled from the spec: [internal::TransferParameters] (its header is
    not among the sources) stores the maximum window, the maximum chunk size
    and the extend-window divisor it is constructed with. *)
Record TransferParameters : Type := {
  max_window_size_bytes : Z;
  max_chunk_size_bytes : Z;
  extend_window_divisor : Z
}.

Definition TransferParameters_set_extend_window_divisor
    (p : TransferParameters) (d : Z) : TransferParameters :=
  {| max_window_size_bytes := max_window_size_bytes p;
     max_chunk_size_bytes := max_chunk_size_bytes p;
     extend_window_divisor := d |}.

Module Event.

(** Modelled from the spec: the event kinds of the transfer thread's work
    queue (section 4.7). *)
Inductive t : Type :=
| NewClientTransfer (handle_id : Z)
| NewServerTransfer
| ChunkReceived (session : Z) (bytes : list Z)
| CancelTransfer (handle_id : Z)
| Timeout (session : Z)
| Shutdown.

End Event.

(** Modelled from the spec: the transfer thread (transfer_thread.h is not
    among the sources) is a single-consumer event loop with a work queue
    (section 4.7); [max_chunk_size] is fixed at construction. *)
Record TransferThread : Type := {
  max_chunk_size : Z;
  work_queue : list Event.t
}.

(** Modelled from the spec: [TransferThread::CancelClientTransfer] enqueues
    a cancel event for the handle. *)
Definition CancelClientTransfer (tt : TransferThread) (handle_id : Z)
  : TransferThread :=
  {| max_chunk_size := max_chunk_size tt;
     work_queue := work_queue tt ++ [Event.CancelTransfer handle_id] |}.

Definition is_cancel (e : Event.t) : bool :=
  match e with Event.CancelTransfer _ => true | _ => false end.

(** [Client::TransferHandle] *)
Record TransferHandle : Type := { id_ : Z }.

Definition kUnassignedHandleId : Z := 0.

Definition TransferHandle_default : TransferHandle :=
  {| id_ := kUnassignedHandleId |}.

Definition id (h : TransferHandle) : Z := id_ h.

Definition is_unassigned (h : TransferHandle) : bool :=
  id_ h =? kUnassignedHandleId.

(** [Client]: the RPC client stub is represented by its channel id; the
    transfer thread is held by reference and threaded through the methods
    that use it. *)
Record Client : Type := {
  default_protocol_version : ProtocolVersion;
  client_ : Z;
  next_handle_id_ : Z;
  max_parameters_ : TransferParameters;
  max_retries_ : Z;
  max_lifetime_retries_ : Z;
  has_read_stream_ : bool;
  has_write_stream_ : bool
}.

Section Config.

(** Constants of pw_transfer/internal/config.h, which is not among the
    sources. *)
Variables (kDefaultExtendWindowDivisor : Z)
          (kDefaultMaxClientRetries : Z)
          (kDefaultMaxLifetimeRetries : Z).

(** The constructor. *)
Definition Client_new (channel_id : Z) (transfer_thread : TransferThread)
    (max_bytes_to_receive : Z) (extend_window_divisor : Z) : Client :=
  {| default_protocol_version := kLatest;
     client_ := channel_id;
     next_handle_id_ := 1;
     max_parameters_ :=
       {| max_window_size_bytes :=
            if max_bytes_to_receive >? 0 then max_bytes_to_receive
            else max_chunk_size transfer_thread;
          max_chunk_size_bytes := max_chunk_size transfer_thread;
          extend_window_divisor := extend_window_divisor |};
     max_retries_ := kDefaultMaxClientRetries;
     max_lifetime_retries_ := kDefaultMaxLifetimeRetries;
     has_read_stream_ := false;
     has_write_stream_ := false |}.

(** The constructor with its default arguments. *)
Definition Client_new_default (channel_id : Z)
    (transfer_thread : TransferThread) : Client :=
  Client_new channel_id transfer_thread 0 kDefaultExtendWindowDivisor.

End Config.

Definition CancelTransfer (c : Client) (tt : TransferThread)
    (handle : TransferHandle) : Client * TransferThread :=
  if negb (is_unassigned handle) then (c, CancelClientTransfer tt (id handle))
  else (c, tt).

Definition set_extend_window_divisor (c : Client) (d : Z)
  : Status * Client :=
  if d <=? 1 then (INVALID_ARGUMENT, c)
  else
    (OK,
     {| default_protocol_version := default_protocol_version c;
        client_ := client_ c;
        next_handle_id_ := next_handle_id_ c;
        max_parameters_ :=
          TransferParameters_set_extend_window_divisor (max_parameters_ c) d;
        max_retries_ := max_retries_ c;
        max_lifetime_retries_ := max_lifetime_retries_ c;
        has_read_stream_ := has_read_stream_ c;
        has_write_stream_ := has_write_stream_ c |}).

Definition set_max_retries (c : Client) (max_retries : Z)
  : Status * Client :=
  if (max_retries <? 1) || (max_retries >? max_lifetime_retries_ c)
  then (INVALID_ARGUMENT, c)
  else
    (OK,
     {| default_protocol_version := default_protocol_version c;
        client_ := client_ c;
        next_handle_id_ := next_handle_id_ c;
        max_parameters_ := max_parameters_ c;
        max_retries_ := max_retries;
        max_lifetime_retries_ := max_lifetime_retries_ c;
        has_read_stream_ := has_read_stream_ c;
        has_write_stream_ := has_write_stream_ c |}).

Definition set_max_lifetime_retries (c : Client) (max_lifetime_retries : Z)
  : Status * Client :=
  if max_lifetime_retries <? max_retries_ c then (INVALID_ARGUMENT, c)
  else
    (OK,
     {| default_protocol_version := default_protocol_version c;
        client_ := client_ c;
        next_handle_id_ := next_handle_id_ c;
        max_parameters_ := max_parameters_ c;
        max_retries_ := max_retries_ c;
        max_lifetime_retries_ := max_lifetime_retries;
        has_read_stream_ := has_read_stream_ c;
        has_write_stream_ := has_write_stream_ c |}).

Definition set_protocol_version (c : Client) (v : ProtocolVersion) : Client :=
  {| default_protocol_version := v;
     client_ := client_ c;
     next_handle_id_ := next_handle_id_ c;
     max_parameters_ := max_parameters_ c;
     max_retries_ := max_retries_ c;
     max_lifetime_retries_ := max_lifetime_retries_ c;
     has_read_stream_ := has_read_stream_ c;
     has_write_stream_ := has_write_stream_ c |}.

End transfer.

(** A client as the constructor leaves it on a thread with 512-byte chunks,
    with 3 retries, 1500 lifetime retries and a divisor of 32 for the
    configuration defaults. *)
Definition example_thread : transfer.TransferThread :=
  {| transfer.max_chunk_size := 512; transfer.work_queue := [] |}.

Definition example_client : transfer.Client :=
  transfer.Client_new_default 32 3 1500 1 example_thread.

(** ** pw_persistent_ram: Persistent<T> (persistent.h) *)

Module persistent_ram.

(** The volatile accesses a method performs, in program order. *)
Inductive Access (T : Type) : Type :=
| WriteContents (v : T)
| ReadContents
| WriteCrc (c : Z)
| ReadCrc.

Arguments WriteContents {T} v.
Arguments ReadContents {T}.
Arguments WriteCrc {T} c.
Arguments ReadCrc {T}.

(** The two members; the constructor initializes neither, so every value of
    the record is a possible state after boot. *)
Record Persistent (T : Type) : Type := {
  contents_ : T;
  crc_ : Z
}.

Arguments contents_ {T} p.
Arguments crc_ {T} p.

Section WithValueType.

Variable T : Type.
(** [std::as_bytes] of a [T]: its object representation. *)
Variable as_bytes : T -> list Z.
(** The value whose representation is all zero bytes (what [memset]
    leaves behind). *)
Variable zeroed : T.
(** [checksum::Crc16Ccitt::Calculate] of pw_checksum, which is not among
    the sources. *)
Variable Crc16Ccitt_Calculate : list Z -> Z.

Definition Crc (value : T) : Z := Crc16Ccitt_Calculate (as_bytes value).

Definition store_contents (p : Persistent T) (v : T) : Persistent T :=
  {| contents_ := v; crc_ := crc_ p |}.

Definition store_crc (p : Persistent T) (c : Z) : Persistent T :=
  {| contents_ := contents_ p; crc_ := c |}.

(** What one access does to the object. *)
Definition perform (p : Persistent T) (a : Access T) : Persistent T :=
  match a with
  | WriteContents v => store_contents p v
  | WriteCrc c => store_crc p c
  | ReadContents | ReadCrc => p
  end.

(** [emplace(args...)]: the new object, the value returned and the
    accesses made. *)
Definition emplace (p : Persistent T) (v : T)
  : Persistent T * T * list (Access T) :=
  let p1 := store_contents p v in
  let p2 := store_crc p1 (Crc (contents_ p1)) in
  (p2, contents_ p2,
   [WriteContents v; ReadContents; WriteCrc (Crc (contents_ p1))]).

(** [operator=(U&& value)] *)
Definition assign (p : Persistent T) (value : T)
  : Persistent T * list (Access T) :=
  let p1 := store_contents p value in
  let p2 := store_crc p1 (Crc (contents_ p1)) in
  (p2, [WriteContents value; ReadContents; WriteCrc (Crc (contents_ p1))]).

Definition reset (p : Persistent T) : Persistent T * list (Access T) :=
  let p1 := store_contents p zeroed in
  (store_crc p1 0, [WriteContents zeroed; WriteCrc 0]).

Definition has_value (p : Persistent T) : bool :=
  crc_ p =? Crc (contents_ p).

(** [value()]: [None] stands for the failed [PW_ASSERT]. *)
Definition value (p : Persistent T) : option T :=
  if has_value p then Some (contents_ p) else None.

End WithValueType.

Arguments Crc {T} as_bytes Crc16Ccitt_Calculate value.
Arguments store_contents {T} p v.
Arguments store_crc {T} p c.
Arguments perform {T} p a.
Arguments emplace {T} as_bytes Crc16Ccitt_Calculate p v.
Arguments assign {T} as_bytes Crc16Ccitt_Calculate p value.
Arguments reset {T} zeroed p.
Arguments has_value {T} as_bytes Crc16Ccitt_Calculate p.
Arguments value {T} as_bytes Crc16Ccitt_Calculate p.

(** Modelled from the spec: the CRC16 integrity tag (pw_checksum is not
    among the sources), as the bitwise CRC-16/CCITT with polynomial 0x1021
    and initial value 0xFFFF.  With a [uint32_t] value and its four
    little-endian bytes it is an instance for running the container. *)
Definition uint32_as_bytes (v : Z) : list Z :=
  [Z.land v 255; Z.land (Z.shiftr v 8) 255;
   Z.land (Z.shiftr v 16) 255; Z.land (Z.shiftr v 24) 255].

Fixpoint crc16_shift (n : nat) (crc : Z) : Z :=
  match n with
  | O => crc
  | S n' =>
      let shifted := Z.land (Z.shiftl crc 1) 65535 in
      crc16_shift n'
        (if Z.testbit crc 15 then Z.lxor shifted 4129 else shifted)
  end.

Definition crc16_byte (crc byte : Z) : Z :=
  crc16_shift 8 (Z.lxor crc (Z.shiftl byte 8)).

Definition crc16_ccitt (bytes : list Z) : Z :=
  fold_left crc16_byte bytes 65535.

End persistent_ram.

(** ** The per-call state machine *)

Module Call.

Inductive Side : Type := Client | Server.

Inductive State : Type := Idle | Active | AwaitingCompletion | Closed.

Inductive Event : Type :=
| Start
| StreamPayloadIn (payload : list Z)
| TerminalPacketIn (payload : list Z) (status : Status)
| ErrorPacketIn (status : Status)
| LocalCancel
| LocalRequestCompletion
| LocalAbandon.

(** What a transition does: a user callback or a packet on the wire. *)
Inductive Effect : Type :=
| on_next (payload : list Z)
| on_completed (payload : list Z) (status : Status)
| on_error (status : Status)
| send_initial
| send (type : Packet.PacketType) (status : Status).

Definition error_type (side : Side) : Packet.PacketType :=
  match side with
  | Client => Packet.ClientError
  | Server => Packet.ServerError
  end.

(** Modelled from the spec: the call state machine of section 4.3 (call.cc
    and client_call.cc are not among the sources).  The rows of the table,
    with [Abandon] closing locally while still sending the completion, and
    every event the table does not list for a state dropped.  A failed send
    is no event of the machine: the send path that is among the sources
    ([BaseServerWriter::ReleasePayloadBuffer]) returns the status of the
    failed send to its caller, leaves the writer open and invokes no
    callback. *)
Definition step (side : Side) (s : State) (e : Event)
  : State * list Effect :=
  match s, e with
  | Idle, Start => (Active, [send_initial])
  | Idle, _ => (Idle, [])
  | Closed, _ => (Closed, [])
  | (Active | AwaitingCompletion), StreamPayloadIn p => (s, [on_next p])
  | (Active | AwaitingCompletion), TerminalPacketIn p st =>
      (Closed, [on_completed p st])
  | (Active | AwaitingCompletion), ErrorPacketIn st =>
      (Closed, [on_error st])
  | (Active | AwaitingCompletion), LocalCancel =>
      (Closed, [send (error_type side) CANCELLED])
  | (Active | AwaitingCompletion), LocalAbandon =>
      (Closed, [send Packet.ClientRequestCompletion OK])
  | Active, LocalRequestCompletion =>
      match side with
      | Client =>
          (AwaitingCompletion, [send Packet.ClientRequestCompletion OK])
      | Server => (Active, [])
      end
  | AwaitingCompletion, LocalRequestCompletion => (AwaitingCompletion, [])
  | (Active | AwaitingCompletion), Start => (s, [])
  end.

(** A run: the events in arrival order, the effects in the order made. *)
Fixpoint run (side : Side) (s : State) (es : list Event)
  : State * list Effect :=
  match es with
  | [] => (s, [])
  | e :: es' =>
      let '(s1, fx1) := step side s e in
      let '(s2, fx2) := run side s1 es' in
      (s2, fx1 ++ fx2)
  end.

Definition is_termination (f : Effect) : bool :=
  match f with
  | on_completed _ _ | on_error _ => true
  | _ => false
  end.

Definition is_on_next (f : Effect) : bool :=
  match f with on_next _ => true | _ => false end.

(** Invocations of [on_completed] plus invocations of [on_error]. *)
Definition terminations (fx : list Effect) : nat :=
  length (filter is_termination fx).

(** No [on_next] comes after an [on_completed] or [on_error]. *)
Fixpoint no_next_after_termination (fx : list Effect) : bool :=
  match fx with
  | [] => true
  | f :: fx' =>
      (if is_termination f then negb (existsb is_on_next fx') else true)
      && no_next_after_termination fx'
  end.

(** The event that closes the call: [Some true] when the first closing
    event of the run ends it through a callback, [Some false] when it
    closes the call locally, [None] when the run leaves the call open. *)
Fixpoint closing (es : list Event) : option bool :=
  match es with
  | [] => None
  | TerminalPacketIn _ _ :: _ | ErrorPacketIn _ :: _ => Some true
  | LocalCancel :: _ | LocalAbandon :: _ => Some false
  | _ :: es' => closing es'
  end.

(** How many termination callbacks a run of an open call is to make. *)
Definition expected_terminations (es : list Event) : nat :=
  match closing es with
  | Some true => 1%nat
  | _ => 0%nat
  end.

Definition is_open (s : State) : bool :=
  match s with
  | Active | AwaitingCompletion => true
  | Idle | Closed => false
  end.

(** Scenario B of the specification: a server stream of two payloads, then
    a local [Cancel]. *)
Definition scenario_B : list Event :=
  [Start; StreamPayloadIn [1]; StreamPayloadIn [2]; LocalCancel].

(** Scenario A: a unary call answered with payload 0xBB and [Ok]. *)
Definition scenario_A : list Event :=
  [Start; TerminalPacketIn [187] OK].

End Call.

(** ** Sequences of calls on a server writer *)

Definition Op_is_Finish (o : BaseServerWriter.Op) : bool :=
  match o with BaseServerWriter.OpFinish => true | _ => false end.

(** ** Server (pw_rpc/server.h) *)

Module Server.

Section WithService.

(** [internal::Service], whose header is not among the sources. *)
Variable Service : Type.

(** [channels_] views the channels the server was constructed with;
    [services_] is the intrusive list of registered services, front first. *)
Record t : Type := {
  channels_ : list Channel.t;
  services_ : list Service
}.

Definition new (channels : list Channel.t) : t :=
  {| channels_ := channels; services_ := [] |}.

(** [RegisterService]: [services_.push_front(service)]. *)
Definition RegisterService (s : t) (service : Service) : t :=
  {| channels_ := channels_ s; services_ := service :: services_ s |}.

Definition channel_count (s : t) : Z := Z.of_nat (length (channels_ s)).

(** Registering several services, one call after the other. *)
Definition RegisterServices (s : t) (services : list Service) : t :=
  fold_left RegisterService services s.

End WithService.

Arguments channels_ {Service} _.
Arguments services_ {Service} _.
Arguments new {Service} channels.
Arguments RegisterService {Service} s service.
Arguments channel_count {Service} s.
Arguments RegisterServices {Service} s services.

End Server.

(** ** Sequences of calls on a transfer client *)

Module transfer_calls.

Inductive ConfigOp : Type :=
| SetExtendWindowDivisor (d : Z)
| SetMaxRetries (r : Z)
| SetMaxLifetimeRetries (x : Z)
| SetProtocolVersion (v : transfer.ProtocolVersion).

(** One setter call: the status it returns ([None] for the [void]
    [set_protocol_version]) and the client it leaves. *)
Definition apply (c : transfer.Client) (op : ConfigOp)
  : option Status * transfer.Client :=
  match op with
  | SetExtendWindowDivisor d =>
      let '(st, c') := transfer.set_extend_window_divisor c d in (Some st, c')
  | SetMaxRetries r =>
      let '(st, c') := transfer.set_max_retries c r in (Some st, c')
  | SetMaxLifetimeRetries x =>
      let '(st, c') := transfer.set_max_lifetime_retries c x in (Some st, c')
  | SetProtocolVersion v => (None, transfer.set_protocol_version c v)
  end.

Fixpoint apply_all (c : transfer.Client) (ops : list ConfigOp)
  : transfer.Client :=
  match ops with
  | [] => c
  | op :: ops' => apply_all (snd (apply c op)) ops'
  end.

(** The retry budgets are consistent. *)
Definition retries_valid (c : transfer.Client) : Prop :=
  1 <= transfer.max_retries_ c <= transfer.max_lifetime_retries_ c.

Definition divisor_valid (c : transfer.Client) : Prop :=
  1 < transfer.extend_window_divisor (transfer.max_parameters_ c).

(** The version the last [set_protocol_version] of a sequence sets. *)
Fixpoint last_version (ops : list ConfigOp) (v0 : transfer.ProtocolVersion)
  : transfer.ProtocolVersion :=
  match ops with
  | [] => v0
  | SetProtocolVersion v :: ops' => last_version ops' v
  | _ :: ops' => last_version ops' v0
  end.

(** [CancelTransfer] on each handle of a list, in order. *)
Fixpoint CancelTransfers (c : transfer.Client) (tt : transfer.TransferThread)
    (handles : list transfer.TransferHandle)
  : transfer.Client * transfer.TransferThread :=
  match handles with
  | [] => (c, tt)
  | h :: handles' =>
      let '(c1, tt1) := transfer.CancelTransfer c tt h in
      CancelTransfers c1 tt1 handles'
  end.

Section ReadWrite.

Variables (Writer Reader CompletionFunc duration Outcome : Type).

(** The overloads of [Read] and [Write] that take the protocol version are
    defined in client.cc, which is not among the sources. *)
Variable Read_version :
  transfer.Client -> transfer.TransferThread -> Z -> Writer -> CompletionFunc
  -> transfer.ProtocolVersion -> duration -> duration -> Outcome.
Variable Write_version :
  transfer.Client -> transfer.TransferThread -> Z -> Reader -> CompletionFunc
  -> transfer.ProtocolVersion -> duration -> duration -> Outcome.

(** [Read] without a version. *)
Definition Read (c : transfer.Client) (tt : transfer.TransferThread)
    (resource_id : Z) (output : Writer) (on_completion : CompletionFunc)
    (timeout initial_chunk_timeout : duration) : Outcome :=
  Read_version c tt resource_id output on_completion
    (transfer.default_protocol_version c) timeout initial_chunk_timeout.

(** [Write] without a version. *)
Definition Write (c : transfer.Client) (tt : transfer.TransferThread)
    (resource_id : Z) (input : Reader) (on_completion : CompletionFunc)
    (timeout initial_chunk_timeout : duration) : Outcome :=
  Write_version c tt resource_id input on_completion
    (transfer.default_protocol_version c) timeout initial_chunk_timeout.

End ReadWrite.

Arguments Read {Writer CompletionFunc duration Outcome} Read_version.
Arguments Write {Reader CompletionFunc duration Outcome} Write_version.

End transfer_calls.

(** ** Nanopb client calls (pw_rpc/nanopb/client_reader_writer.h) *)

Module nanopb.

(** The callback a nanopb call registers with its base class: the lambda
    that captures [this]. *)
Inductive Closure : Type := Lambda (this : Z).

Section WithTypes.

(** [NanopbMethodSerde], the serde of the response it gives, the user's
    [Function] objects, the state of the base call classes other than the
    callback slot, and what decoding and invoking does. *)
Variables (NanopbMethodSerde NanopbSerde : Type).
Variable response : NanopbMethodSerde -> NanopbSerde.
Variables (OnCompleted OnNext Base Outcome : Type).

(** [DecodeToStructAndInvokeOnCompleted] and [DecodeToStructAndInvokeOnNext]
    of pw_rpc/nanopb/internal/common.h, which is not among the sources. *)
Variable DecodeToStructAndInvokeOnCompleted :
  list Z -> NanopbSerde -> option OnCompleted -> Status -> Outcome.
Variable DecodeToStructAndInvokeOnNext :
  list Z -> NanopbSerde -> option OnNext -> Outcome.

(** What is left in a [Function] that has been moved from. *)
Variable moved_from_on_completed : option OnCompleted -> option OnCompleted.
Variable moved_from_on_next : option OnNext -> option OnNext.

(** Modelled from the spec: the base call (client_call.h is not among the
    sources) holds the callback registered with it (section 3); the rest of
    its state is opaque here. *)
Record BaseCall : Type := {
  core : Base;
  callback_ : option Closure
}.

(** [MoveUnaryResponseClientCallFrom] and [MoveStreamResponseClientCallFrom]
    of the base classes: the new base of [*this] and of [other]. *)
Variable MoveUnaryResponseClientCallFrom :
  BaseCall -> BaseCall -> BaseCall * BaseCall.
Variable MoveStreamResponseClientCallFrom :
  BaseCall -> BaseCall -> BaseCall * BaseCall.

(** [set_on_completed_locked] / [set_on_next_locked] of the base class. *)
Definition set_callback_locked (b : BaseCall) (f : Closure) : BaseCall :=
  {| core := core b; callback_ := Some f |}.

(** [NanopbUnaryResponseClientCall<Response>] *)
Record NanopbUnaryResponseClientCall : Type := {
  unary_base : BaseCall;
  serde_ : option NanopbMethodSerde;
  nanopb_on_completed_ : option OnCompleted
}.

(** The call objects, by address. *)
Definition UnaryHeap : Type := Z -> option NanopbUnaryResponseClientCall.

Definition unary_upd (h : UnaryHeap) (a : Z)
    (o : NanopbUnaryResponseClientCall) : UnaryHeap :=
  fun x => if x =? a then Some o else h x.

(** [set_nanopb_on_completed_locked(on_completed)] on the call at [this];
    [None] when no call lives there. *)
Definition set_nanopb_on_completed_locked (h : UnaryHeap) (this : Z)
    (on_completed : option OnCompleted) : option UnaryHeap :=
  match h this with
  | None => None
  | Some o =>
      Some (unary_upd h this
              {| unary_base := set_callback_locked (unary_base o) (Lambda this);
                 serde_ := serde_ o;
                 nanopb_on_completed_ := on_completed |})
  end.

(** [set_on_completed]: the same under the lock. *)
Definition set_on_completed (h : UnaryHeap) (this : Z)
    (on_completed : option OnCompleted) : option UnaryHeap :=
  set_nanopb_on_completed_locked h this on_completed.

(** [operator=(NanopbUnaryResponseClientCall&& other)] on the call at
    [this]. *)
Definition unary_move_assign (h : UnaryHeap) (this other : Z)
  : option UnaryHeap :=
  match h this, h other with
  | Some t, Some o =>
      (* MoveUnaryResponseClientCallFrom(other); *)
      let '(tb, ob) :=
        MoveUnaryResponseClientCallFrom (unary_base t) (unary_base o) in
      let h1 :=
        unary_upd
          (unary_upd h this
             {| unary_base := tb; serde_ := serde_ t;
                nanopb_on_completed_ := nanopb_on_completed_ t |})
          other
          {| unary_base := ob; serde_ := serde_ o;
             nanopb_on_completed_ := nanopb_on_completed_ o |} in
      match h1 this, h1 other with
      | Some t1, Some o1 =>
          (* serde_ = other.serde_; *)
          let h2 :=
            unary_upd h1 this
              {| unary_base := unary_base t1; serde_ := serde_ o1;
                 nanopb_on_completed_ := nanopb_on_completed_ t1 |} in
          (* set_nanopb_on_completed_locked(
                 std::move(other.nanopb_on_completed_)); *)
          match h2 other with
          | Some o2 =>
              let moved := nanopb_on_completed_ o2 in
              let h3 :=
                unary_upd h2 other
                  {| unary_base := unary_base o2; serde_ := serde_ o2;
                     nanopb_on_completed_ :=
                       moved_from_on_completed moved |} in
              set_nanopb_on_completed_locked h3 this moved
          | None => None
          end
      | _, _ => None
      end
  | _, _ => None
  end.

(** The base class invoking the callback registered at [a] for a response:
    the lambda reads [serde_] and [nanopb_on_completed_] of the object it
    captured.  [None] when there is no call, no callback, the captured
    object is gone, or its [serde_] is null. *)
Definition invoke_on_completed (h : UnaryHeap) (a : Z) (payload : list Z)
    (status : Status) : option Outcome :=
  match h a with
  | None => None
  | Some o =>
      match callback_ (unary_base o) with
      | None => None
      | Some (Lambda this) =>
          match h this with
          | None => None
          | Some captured =>
              match serde_ captured with
              | None => None
              | Some serde =>
                  Some (DecodeToStructAndInvokeOnCompleted payload
                          (response serde) (nanopb_on_completed_ captured)
                          status)
              end
          end
      end
  end.

(** [NanopbStreamResponseClientCall<Response>] *)
Record NanopbStreamResponseClientCall : Type := {
  stream_base : BaseCall;
  stream_serde_ : option NanopbMethodSerde;
  nanopb_on_next_ : option OnNext
}.

Definition StreamHeap : Type := Z -> option NanopbStreamResponseClientCall.

Definition stream_upd (h : StreamHeap) (a : Z)
    (o : NanopbStreamResponseClientCall) : StreamHeap :=
  fun x => if x =? a then Some o else h x.

(** [set_nanopb_on_next_locked(on_next)] on the call at [this]. *)
Definition set_nanopb_on_next_locked (h : StreamHeap) (this : Z)
    (on_next : option OnNext) : option StreamHeap :=
  match h this with
  | None => None
  | Some o =>
      Some (stream_upd h this
              {| stream_base :=
                   set_callback_locked (stream_base o) (Lambda this);
                 stream_serde_ := stream_serde_ o;
                 nanopb_on_next_ := on_next |})
  end.

Definition set_on_next (h : StreamHeap) (this : Z) (on_next : option OnNext)
  : option StreamHeap :=
  set_nanopb_on_next_locked h this on_next.

(** [operator=(NanopbStreamResponseClientCall&& other)] on the call at
    [this]. *)
Definition stream_move_assign (h : StreamHeap) (this other : Z)
  : option StreamHeap :=
  match h this, h other with
  | Some t, Some o =>
      (* MoveStreamResponseClientCallFrom(other); *)
      let '(tb, ob) :=
        MoveStreamResponseClientCallFrom (stream_base t) (stream_base o) in
      let h1 :=
        stream_upd
          (stream_upd h this
             {| stream_base := tb; stream_serde_ := stream_serde_ t;
                nanopb_on_next_ := nanopb_on_next_ t |})
          other
          {| stream_base := ob; stream_serde_ := stream_serde_ o;
             nanopb_on_next_ := nanopb_on_next_ o |} in
      match h1 this, h1 other with
      | Some t1, Some o1 =>
          (* serde_ = other.serde_; *)
          let h2 :=
            stream_upd h1 this
              {| stream_base := stream_base t1;
                 stream_serde_ := stream_serde_ o1;
                 nanopb_on_next_ := nanopb_on_next_ t1 |} in
          (* set_nanopb_on_next_locked(std::move(other.nanopb_on_next_)); *)
          match h2 other with
          | Some o2 =>
              let moved := nanopb_on_next_ o2 in
              let h3 :=
                stream_upd h2 other
                  {| stream_base := stream_base o2;
                     stream_serde_ := stream_serde_ o2;
                     nanopb_on_next_ := moved_from_on_next moved |} in
              set_nanopb_on_next_locked h3 this moved
          | None => None
          end
      | _, _ => None
      end
  | _, _ => None
  end.

(** The base class invoking the [on_next] callback registered at [a] for a
    stream payload. *)
Definition invoke_on_next (h : StreamHeap) (a : Z) (payload : list Z)
  : option Outcome :=
  match h a with
  | None => None
  | Some o =>
      match callback_ (stream_base o) with
      | None => None
      | Some (Lambda this) =>
          match h this with
          | None => None
          | Some captured =>
              match stream_serde_ captured with
              | None => None
              | Some serde =>
                  Some (DecodeToStructAndInvokeOnNext payload
                          (response serde) (nanopb_on_next_ captured))
              end
          end
      end
  end.

End WithTypes.

Arguments core {Base} _.
Arguments callback_ {Base} _.
Arguments set_callback_locked {Base} b f.
Arguments unary_base {NanopbMethodSerde OnCompleted Base} _.
Arguments serde_ {NanopbMethodSerde OnCompleted Base} _.
Arguments nanopb_on_completed_ {NanopbMethodSerde OnCompleted Base} _.
Arguments unary_upd {NanopbMethodSerde OnCompleted Base} h a o _.
Arguments set_nanopb_on_completed_locked {NanopbMethodSerde OnCompleted Base}
  h this on_completed.
Arguments set_on_completed {NanopbMethodSerde OnCompleted Base}
  h this on_completed.
Arguments unary_move_assign {NanopbMethodSerde OnCompleted Base}
  moved_from_on_completed MoveUnaryResponseClientCallFrom h this other.
Arguments invoke_on_completed {NanopbMethodSerde NanopbSerde} response
  {OnCompleted Base Outcome} DecodeToStructAndInvokeOnCompleted
  h a payload status.
Arguments stream_base {NanopbMethodSerde OnNext Base} _.
Arguments stream_serde_ {NanopbMethodSerde OnNext Base} _.
Arguments nanopb_on_next_ {NanopbMethodSerde OnNext Base} _.
Arguments stream_upd {NanopbMethodSerde OnNext Base} h a o _.
Arguments set_nanopb_on_next_locked {NanopbMethodSerde OnNext Base}
  h this on_next.
Arguments set_on_next {NanopbMethodSerde OnNext Base} h this on_next.
Arguments stream_move_assign {NanopbMethodSerde OnNext Base}
  moved_from_on_next MoveStreamResponseClientCallFrom h this other.
Arguments invoke_on_next {NanopbMethodSerde NanopbSerde} response
  {OnNext Base Outcome} DecodeToStructAndInvokeOnNext h a payload.

(** The four call classes users hold. *)
Inductive CallClass : Type :=
| NanopbClientReaderWriter
| NanopbClientReader
| NanopbClientWriter
| NanopbUnaryReceiver.

Inductive MethodType : Type :=
| kUnary | kServerStreaming | kClientStreaming | kBidirectionalStreaming.

Inductive ResponseBase : Type :=
| UnaryResponseBase    (* NanopbUnaryResponseClientCall *)
| StreamResponseBase.  (* NanopbStreamResponseClientCall *)

(** The class each one derives from. *)
Definition base_of (c : CallClass) : ResponseBase :=
  match c with
  | NanopbClientReaderWriter | NanopbClientReader => StreamResponseBase
  | NanopbClientWriter | NanopbUnaryReceiver => UnaryResponseBase
  end.

(** The [MethodType] each constructor passes to its base. *)
Definition method_type_of (c : CallClass) : MethodType :=
  match c with
  | NanopbClientReaderWriter => kBidirectionalStreaming
  | NanopbClientReader => kServerStreaming
  | NanopbClientWriter => kClientStreaming
  | NanopbUnaryReceiver => kUnary
  end.

(** The members each class makes public. *)
Definition has_Write (c : CallClass) : bool :=
  match c with
  | NanopbClientReaderWriter | NanopbClientWriter => true
  | NanopbClientReader | NanopbUnaryReceiver => false
  end.

Definition has_set_on_next (c : CallClass) : bool :=
  match c with
  | NanopbClientReaderWriter | NanopbClientReader => true
  | NanopbClientWriter | NanopbUnaryReceiver => false
  end.

Definition has_RequestCompletion (c : CallClass) : bool :=
  match c with
  | NanopbClientReaderWriter | NanopbClientReader | NanopbClientWriter => true
  | NanopbUnaryReceiver => false
  end.

(** Modelled from the spec: which method kinds stream in which direction
    (section 3; method_type.h is not among the sources). *)
Definition HasServerStream (m : MethodType) : bool :=
  match m with
  | kServerStreaming | kBidirectionalStreaming => true
  | kUnary | kClientStreaming => false
  end.

Definition HasClientStream (m : MethodType) : bool :=
  match m with
  | kClientStreaming | kBidirectionalStreaming => true
  | kUnary | kServerStreaming => false
  end.

End nanopb.

(** * Properties *)

(** ** Sizes of the wire format *)

Lemma varint_EncodedSize_pos (v : Z) : 1 <= varint.EncodedSize v.
Proof.
  unfold varint.EncodedSize, varint.Encode, varint.kMaxVarint64SizeBytes.
  cbn [varint.encode_groups].
  destruct (v <? 128); cbn [length]; lia.
Qed.

Lemma varint_EncodedSize_one (v : Z) : v < 128 -> varint.EncodedSize v = 1.
Proof.
  intros Hv.
  unfold varint.EncodedSize, varint.Encode, varint.kMaxVarint64SizeBytes.
  cbn [varint.encode_groups].
  apply Z.ltb_lt in Hv. rewrite Hv. reflexivity.
Qed.

Lemma varint_EncodedSize_two (v : Z) : 128 <= v -> 2 <= varint.EncodedSize v.
Proof.
  intros Hv.
  unfold varint.EncodedSize, varint.Encode, varint.kMaxVarint64SizeBytes.
  cbn [varint.encode_groups].
  destruct (Z.ltb_spec v 128) as [Hlt | _]; [lia |].
  destruct (Z.shiftr v 7 <? 128); cbn [length]; lia.
Qed.

Lemma type_field_size (ty : Packet.PacketType) :
  length (Packet.WriteVarintField Packet.kTypeTag (Packet.PacketType_value ty))
  = 2%nat.
Proof. destruct ty; reflexivity. Qed.

Lemma status_field_size (st : Status) :
  length (Packet.WriteVarintField Packet.kStatusTag (Status_code st)) = 2%nat.
Proof. destruct st; reflexivity. Qed.

Lemma id_field_size (tag v : Z) :
  0 <= tag < 16 ->
  Z.of_nat (length (Packet.WriteVarintField tag v)) = 1 + varint.EncodedSize v.
Proof.
  intros Htag. unfold Packet.WriteVarintField, Packet.FieldKey.
  rewrite length_app, Nat2Z.inj_add.
  fold (varint.EncodedSize (Z.lor (Z.shiftl tag 3) Packet.kVarintWire)).
  fold (varint.EncodedSize v).
  rewrite varint_EncodedSize_one; [reflexivity |].
  unfold Packet.kVarintWire. rewrite Z.lor_0_r, Z.shiftl_mul_pow2 by lia.
  change (2 ^ 3) with 8. lia.
Qed.

(** The size of a frame: the required fields, the extra bytes of the payload
    length and the payload itself. *)
Lemma Packet_EncodedSize_eq (p : Packet.t) :
  Packet.EncodedSize p
  = Packet.MinEncodedSizeBytes p
    + (varint.EncodedSize (Z.of_nat (length (Packet.payload p))) - 1)
    + Z.of_nat (length (Packet.payload p)).
Proof.
  unfold Packet.EncodedSize, Packet.EncodedBytes, Packet.MinEncodedSizeBytes.
  repeat rewrite length_app. repeat rewrite Nat2Z.inj_add.
  rewrite type_field_size, status_field_size.
  rewrite !id_field_size by (cbv; split; congruence).
  unfold Packet.WriteBytesField.
  repeat rewrite length_app. repeat rewrite Nat2Z.inj_add.
  fold (varint.EncodedSize (Z.of_nat (length (Packet.payload p)))).
  change (Z.of_nat (length (Packet.FieldKey Packet.kPayloadTag
                              Packet.kDelimitedWire))) with 1.
  lia.
Qed.

(** [MinEncodedSizeBytes] is the size of the frame the packet would have with
    an empty payload. *)
Lemma MinEncodedSizeBytes_empty_payload (p : Packet.t) :
  Packet.MinEncodedSizeBytes p = Packet.EncodedSize (Packet.set_payload p []).
Proof.
  rewrite Packet_EncodedSize_eq. cbn [Packet.set_payload Packet.payload length].
  unfold Packet.MinEncodedSizeBytes. cbn. lia.
Qed.

Lemma MinEncodedSizeBytes_ge (p : Packet.t) :
  kReservedSize <= Packet.MinEncodedSizeBytes p.
Proof.
  unfold Packet.MinEncodedSizeBytes, kReservedSize.
  pose proof (varint_EncodedSize_pos (Packet.channel_id p)).
  pose proof (varint_EncodedSize_pos (Packet.service_id p)).
  pose proof (varint_EncodedSize_pos (Packet.method_id p)).
  lia.
Qed.

Lemma MinEncodedSizeBytes_small_ids (p : Packet.t) :
  Packet.channel_id p < 128 -> Packet.service_id p < 128 ->
  Packet.method_id p < 128 ->
  Packet.MinEncodedSizeBytes p = kReservedSize.
Proof.
  intros Hc Hs Hm. unfold Packet.MinEncodedSizeBytes, kReservedSize.
  rewrite !varint_EncodedSize_one by assumption. reflexivity.
Qed.

Lemma Packet_EncodedSize_ge (p : Packet.t) :
  Packet.MinEncodedSizeBytes p + Z.of_nat (length (Packet.payload p))
  <= Packet.EncodedSize p.
Proof.
  rewrite Packet_EncodedSize_eq.
  pose proof (varint_EncodedSize_pos (Z.of_nat (length (Packet.payload p)))).
  lia.
Qed.

(** The reserved size is the twelve bytes of channel_test.cc exactly when the
    three ids each fit one varint byte. *)
Lemma MinEncodedSizeBytes_12_iff (p : Packet.t) :
  Packet.MinEncodedSizeBytes p = 12
  <-> Packet.channel_id p < 128 /\ Packet.service_id p < 128
      /\ Packet.method_id p < 128.
Proof.
  split.
  - intros H12. unfold Packet.MinEncodedSizeBytes in H12.
    pose proof (varint_EncodedSize_pos (Packet.channel_id p)) as Hc.
    pose proof (varint_EncodedSize_pos (Packet.service_id p)) as Hs.
    pose proof (varint_EncodedSize_pos (Packet.method_id p)) as Hm.
    repeat split.
    + destruct (Z.lt_ge_cases (Packet.channel_id p) 128) as [|Hge]; [assumption|].
      apply varint_EncodedSize_two in Hge. lia.
    + destruct (Z.lt_ge_cases (Packet.service_id p) 128) as [|Hge]; [assumption|].
      apply varint_EncodedSize_two in Hge. lia.
    + destruct (Z.lt_ge_cases (Packet.method_id p) 128) as [|Hge]; [assumption|].
      apply varint_EncodedSize_two in Hge. lia.
  - intros (Hc & Hs & Hm).
    now rewrite MinEncodedSizeBytes_small_ids.
Qed.

(** ** Channel *)

Lemma Channel_payload_fits (b : Channel.OutputBuffer) (p : Packet.t) :
  Packet.MinEncodedSizeBytes p <= size (Channel.buffer_ b) ->
  Channel.payload b p
  = subspan (Channel.buffer_ b) (Packet.MinEncodedSizeBytes p).
Proof.
  intros Hfit. unfold Channel.payload.
  apply Z.leb_le in Hfit. now rewrite Hfit.
Qed.

Lemma Channel_payload_too_small (b : Channel.OutputBuffer) (p : Packet.t) :
  size (Channel.buffer_ b) < Packet.MinEncodedSizeBytes p ->
  Channel.payload b p = empty_span.
Proof.
  intros Hsmall. unfold Channel.payload.
  apply Z.leb_gt in Hsmall. now rewrite Hsmall.
Qed.

(** [Send] succeeds exactly when the whole frame fits the buffer. *)
Lemma Channel_Send_status (c : Channel.t) (b : Channel.OutputBuffer)
    (p : Packet.t) :
  fst (fst (Channel.Send c b p))
  = if Packet.EncodedSize p <=? size (Channel.buffer_ b) then OK else INTERNAL.
Proof.
  unfold Channel.Send, Packet.Encode.
  destruct (Packet.EncodedSize p <=? size (Channel.buffer_ b)); reflexivity.
Qed.

Lemma Channel_Send_ok_iff (c : Channel.t) (b : Channel.OutputBuffer)
    (p : Packet.t) :
  fst (fst (Channel.Send c b p)) = OK
  <-> Packet.EncodedSize p <= size (Channel.buffer_ b).
Proof.
  rewrite Channel_Send_status.
  destruct (Z.leb_spec (Packet.EncodedSize p) (size (Channel.buffer_ b)));
    split; intros; try lia; try reflexivity; discriminate.
Qed.

(** C3 (as the specification words it), refuted: a packet with all six
    required fields and a zero-length payload whose channel id is 128 has a
    minimum encoded size of 13 bytes, and 13 bytes are what the channel
    reserves before its payload. *)
Lemma C3_large_id_needs_13_bytes :
  let p := Packet.Packet Packet.RPC 128 42 100 [] OK in
  let b := Channel.AcquireBuffer
             {| Channel.id := 100; Channel.output := TestOutput 1000 24 |} in
  Packet.MinEncodedSizeBytes p = 13
  /\ Packet.EncodedBytes p = [8; 0; 16; 128; 1; 24; 42; 32; 100; 42; 0; 48; 0]
  /\ Channel.payload b p = {| data := 1013; size := 11 |}.
Proof. repeat split. Qed.

(** C3, amended: for a packet with all six required fields, a zero-length
    payload and channel, service and method ids below 128 (the test packet is
    one), [MinEncodedSizeBytes()] is exactly 12, two bytes per field, it is
    the length of the packet's frame, and it is the headroom the channel
    reserves before the payload in every buffer that can hold it. *)
Theorem C3_min_encoded_size_is_12 (p : Packet.t) (b : Channel.OutputBuffer) :
  Packet.channel_id p < 128 -> Packet.service_id p < 128 ->
  Packet.method_id p < 128 -> Packet.payload p = [] ->
  12 <= size (Channel.buffer_ b) ->
  Packet.MinEncodedSizeBytes p = 12
  /\ kReservedSize = Packet.MinEncodedSizeBytes p
  /\ Packet.EncodedSize p = 12
  /\ data (Channel.payload b p) = data (Channel.buffer_ b) + 12
  /\ size (Channel.payload b p) = size (Channel.buffer_ b) - 12.
Proof.
  intros Hc Hs Hm Hpay Hsize.
  assert (H12 : Packet.MinEncodedSizeBytes p = 12)
    by (apply MinEncodedSizeBytes_12_iff; auto).
  repeat split.
  - exact H12.
  - now rewrite H12.
  - rewrite Packet_EncodedSize_eq, H12, Hpay. reflexivity.
  - rewrite Channel_payload_fits by lia. rewrite H12. reflexivity.
  - rewrite Channel_payload_fits by lia. rewrite H12. reflexivity.
Qed.

Lemma C3_witness_kTestPacket :
  Packet.MinEncodedSizeBytes kTestPacket = 12
  /\ kReservedSize = Packet.MinEncodedSizeBytes kTestPacket
  /\ Packet.EncodedSize kTestPacket = 12
  /\ data (Channel.payload
             (Channel.AcquireBuffer
                {| Channel.id := 100; Channel.output := TestOutput 1000 36 |})
             kTestPacket) = 1000 + 12
  /\ size (Channel.payload
             (Channel.AcquireBuffer
                {| Channel.id := 100; Channel.output := TestOutput 1000 36 |})
             kTestPacket) = 36 - 12.
Proof.
  apply (C3_min_encoded_size_is_12 kTestPacket
           (Channel.AcquireBuffer
              {| Channel.id := 100; Channel.output := TestOutput 1000 36 |}));
    simpl; first [reflexivity | lia].
Defined.

(** C4 (as the specification words it), refuted at two buffers of at least
    twelve bytes.  In a 24-byte buffer the payload span of a packet whose
    channel id is 128 starts 13 bytes in and is 11 bytes long, not 12 and 12.
    In a 140-byte buffer the payload span of the test packet is 128 bytes
    long, a 128-byte payload fits it, and [Send] of the packet with that
    payload returns [Internal]: the length prefix of the payload then takes
    two bytes. *)
Lemma C4_payload_math_fails :
  let c24 := {| Channel.id := 100; Channel.output := TestOutput 1000 24 |} in
  let c140 := {| Channel.id := 100; Channel.output := TestOutput 1000 140 |} in
  let p := Packet.Packet Packet.RPC 128 42 100 [] OK in
  let q := Packet.set_payload kTestPacket (repeat 0 128) in
  Channel.payload (Channel.AcquireBuffer c24) p = {| data := 1013; size := 11 |}
  /\ Channel.payload (Channel.AcquireBuffer c24) p
     <> {| data := 1000 + 12; size := 24 - 12 |}
  /\ size (Channel.payload (Channel.AcquireBuffer c140) q) = 140 - 12
  /\ Z.of_nat (length (Packet.payload q)) = 128
  /\ fst (fst (Channel.Send c140 (Channel.AcquireBuffer c140) q)) = INTERNAL.
Proof.
  cbv zeta. repeat split; try reflexivity.
  vm_compute. discriminate.
Qed.

(** C4, amended: for every channel whose output buffer has size N >= 12 and
    every packet whose channel, service and method ids are below 128, after
    [AcquireBuffer] the payload span has size exactly N - 12 and starts at
    [output.data() + 12]; and [Send] of such a packet whose payload is shorter
    than 128 bytes and fits that span returns [Ok] and hands the packet's
    frame to the output. *)
Theorem C4_payload_math (c : Channel.t) (p q : Packet.t) :
  12 <= size (Channel.buffer (Channel.output c)) ->
  Packet.channel_id p < 128 -> Packet.service_id p < 128 ->
  Packet.method_id p < 128 ->
  Packet.channel_id q < 128 -> Packet.service_id q < 128 ->
  Packet.method_id q < 128 ->
  Z.of_nat (length (Packet.payload q)) < 128 ->
  Z.of_nat (length (Packet.payload q))
  <= size (Channel.payload (Channel.AcquireBuffer c) p) ->
  let b := Channel.AcquireBuffer c in
  Channel.payload b p
  = {| data := data (Channel.buffer (Channel.output c)) + 12;
       size := size (Channel.buffer (Channel.output c)) - 12 |}
  /\ fst (fst (Channel.Send c b q)) = OK
  /\ Channel.sent (Channel.output (snd (fst (Channel.Send c b q))))
     = Channel.sent (Channel.output c) ++ [Packet.EncodedBytes q].
Proof.
  intros HN Hpc Hps Hpm Hqc Hqs Hqm Hshort Hfit b.
  assert (Hp : Packet.MinEncodedSizeBytes p = 12)
    by (apply MinEncodedSizeBytes_12_iff; auto).
  assert (Hq : Packet.MinEncodedSizeBytes q = 12)
    by (apply MinEncodedSizeBytes_12_iff; auto).
  assert (Hpayload :
            Channel.payload b p
            = {| data := data (Channel.buffer (Channel.output c)) + 12;
                 size := size (Channel.buffer (Channel.output c)) - 12 |}).
  { subst b. rewrite Channel_payload_fits by (cbn; lia).
    rewrite Hp. reflexivity. }
  fold b in Hfit. rewrite Hpayload in Hfit. cbn [size] in Hfit.
  assert (Hsize : Packet.EncodedSize q <= size (Channel.buffer_ b)).
  { rewrite Packet_EncodedSize_eq, Hq.
    rewrite varint_EncodedSize_one by assumption.
    subst b. unfold Channel.AcquireBuffer. cbn [Channel.buffer_]. lia. }
  split; [exact Hpayload |].
  unfold Channel.Send, Packet.Encode.
  apply Z.leb_le in Hsize. rewrite Hsize. cbn. split; reflexivity.
Qed.

Lemma C4_witness_exact_fit_and_extra_room :
  (let c := {| Channel.id := 100;
               Channel.output := TestOutput 1000 kReservedSize |} in
   Channel.payload (Channel.AcquireBuffer c) kTestPacket
   = {| data := 1000 + 12; size := 12 - 12 |}
   /\ fst (fst (Channel.Send c (Channel.AcquireBuffer c) kTestPacket)) = OK)
  /\
  (let c := {| Channel.id := 100;
               Channel.output := TestOutput 1000 (kReservedSize * 3) |} in
   Channel.payload (Channel.AcquireBuffer c) kTestPacket
   = {| data := 1000 + 12; size := 36 - 12 |}
   /\ fst (fst (Channel.Send c (Channel.AcquireBuffer c)
                  (Packet.set_payload kTestPacket [1; 2; 3]))) = OK).
Proof.
  split; cbv zeta.
  - pose proof (C4_payload_math
                  {| Channel.id := 100;
                     Channel.output := TestOutput 1000 kReservedSize |}
                  kTestPacket kTestPacket) as H.
    cbv zeta in H. cbn in H.
    destruct H as (Hp & Hs & _); try lia.
    split; [exact Hp | exact Hs].
  - pose proof (C4_payload_math
                  {| Channel.id := 100;
                     Channel.output := TestOutput 1000 (kReservedSize * 3) |}
                  kTestPacket (Packet.set_payload kTestPacket [1; 2; 3])) as H.
    cbv zeta in H. cbn in H.
    destruct H as (Hp & Hs & _); try lia.
    split; [exact Hp | exact Hs].
Defined.

(** C5: for every channel whose output buffer is smaller than the 12-byte
    reserved header, [payload(packet)] is the empty span and [Send] returns
    [Internal]; and [Send] returns [Internal] whenever the packet's payload
    is longer than the space left after the reserved header (the packet's
    minimum encoded size, which is at least 12).  A failed [Send] transmits
    nothing. *)
Theorem C5_send_internal (c : Channel.t) (p : Packet.t) :
  let N := size (Channel.buffer (Channel.output c)) in
  let b := Channel.AcquireBuffer c in
  let L := Z.of_nat (length (Packet.payload p)) in
  (N < 12 ->
   Channel.payload b p = empty_span
   /\ fst (fst (Channel.Send c b p)) = INTERNAL
   /\ snd (fst (Channel.Send c b p)) = c)
  /\ (N - Packet.MinEncodedSizeBytes p < L ->
      fst (fst (Channel.Send c b p)) = INTERNAL
      /\ snd (fst (Channel.Send c b p)) = c)
  /\ (N - 12 < L ->
      fst (fst (Channel.Send c b p)) = INTERNAL
      /\ snd (fst (Channel.Send c b p)) = c).
Proof.
  intros N b L.
  pose proof (MinEncodedSizeBytes_ge p) as Hmin.
  pose proof (Packet_EncodedSize_ge p) as Hsize.
  change kReservedSize with 12 in Hmin. fold L in Hsize.
  assert (Hfail : N < Packet.EncodedSize p ->
                  fst (fst (Channel.Send c b p)) = INTERNAL
                  /\ snd (fst (Channel.Send c b p)) = c).
  { intros Hbig. unfold Channel.Send, Packet.Encode.
    replace (size (Channel.buffer_ b)) with N by reflexivity.
    apply Z.leb_gt in Hbig. rewrite Hbig. cbn. split; reflexivity. }
  repeat split.
  - apply Channel_payload_too_small.
    replace (size (Channel.buffer_ b)) with N by reflexivity. lia.
  - apply Hfail. lia.
  - apply Hfail. lia.
  - apply Hfail. lia.
  - apply Hfail. lia.
  - apply Hfail. lia.
  - apply Hfail. lia.
Qed.

(** The two tests of channel_test.cc: a buffer of eleven bytes, and a
    twelve-byte buffer with a one-byte payload. *)
Lemma C5_witness_too_small_and_does_not_fit :
  (let c := {| Channel.id := 100;
               Channel.output := TestOutput 1000 (kReservedSize - 1) |} in
   Channel.payload (Channel.AcquireBuffer c) kTestPacket = empty_span
   /\ fst (fst (Channel.Send c (Channel.AcquireBuffer c) kTestPacket))
      = INTERNAL)
  /\
  (let c := {| Channel.id := 100;
               Channel.output := TestOutput 1000 kReservedSize |} in
   fst (fst (Channel.Send c (Channel.AcquireBuffer c)
               (Packet.set_payload kTestPacket [0]))) = INTERNAL).
Proof.
  split; cbv zeta.
  - destruct (C5_send_internal
                {| Channel.id := 100;
                   Channel.output := TestOutput 1000 (kReservedSize - 1) |}
                kTestPacket) as (Hsmall & _ & _).
    destruct Hsmall as (Hp & Hs & _); [vm_compute; reflexivity |].
    split; [exact Hp | exact Hs].
  - destruct (C5_send_internal
                {| Channel.id := 100;
                   Channel.output := TestOutput 1000 kReservedSize |}
                (Packet.set_payload kTestPacket [0])) as (_ & _ & Hfit).
    destruct Hfit as (Hs & _); [vm_compute; reflexivity |].
    exact Hs.
Defined.

(** ** BaseServerWriter *)

Lemma closed_writer_call_op (w : BaseServerWriter.t) (c : Channel.t)
    (o : BaseServerWriter.Op) :
  BaseServerWriter.state_ w = BaseServerWriter.kClosed ->
  BaseServerWriter.call_op w c o = (BaseServerWriter.closed_ret o, w, c).
Proof.
  intros Hclosed.
  destruct o; cbn [BaseServerWriter.call_op];
    unfold BaseServerWriter.Finish, BaseServerWriter.AcquirePayloadBuffer,
      BaseServerWriter.ReleasePayloadBuffer, BaseServerWriter.open;
    rewrite Hclosed; reflexivity.
Qed.

Lemma closed_writer_call_ops (w : BaseServerWriter.t) (c : Channel.t)
    (ops : list BaseServerWriter.Op) :
  BaseServerWriter.state_ w = BaseServerWriter.kClosed ->
  BaseServerWriter.call_ops w c ops
  = (map BaseServerWriter.closed_ret ops, w, c).
Proof.
  intros Hclosed. induction ops as [| o ops IH].
  - reflexivity.
  - cbn [BaseServerWriter.call_ops map].
    rewrite closed_writer_call_op by assumption. rewrite IH. reflexivity.
Qed.

(** [Finish] closes an open writer and leaves the channel as it was. *)
Lemma Finish_closes (w : BaseServerWriter.t) (c : Channel.t) :
  BaseServerWriter.open (fst (BaseServerWriter.Finish w c)) = false
  /\ snd (BaseServerWriter.Finish w c) = c.
Proof.
  unfold BaseServerWriter.Finish, BaseServerWriter.open.
  destruct (BaseServerWriter.state_ w) eqn:Hstate; cbn;
    try rewrite Hstate; split; reflexivity.
Qed.

(** C2, the code at an open writer: [Finish] on an open server writer whose
    channel has a 64-byte output buffer closes the writer, and the channel
    output has been handed no frame: no terminal response packet is sent. *)
Theorem C2_Finish_sends_no_packet :
  let c := {| Channel.id := 1; Channel.output := TestOutput 1000 64 |} in
  let w := {| BaseServerWriter.call_ :=
                {| BaseServerWriter.service_id := 42;
                   BaseServerWriter.method_id := 100 |};
              BaseServerWriter.response_ := Channel.OutputBuffer_default;
              BaseServerWriter.state_ := BaseServerWriter.kOpen |} in
  BaseServerWriter.open w = true
  /\ BaseServerWriter.open (fst (BaseServerWriter.Finish w c)) = false
  /\ Channel.sent (Channel.output (snd (BaseServerWriter.Finish w c))) = [].
Proof. repeat split. Qed.

(** C10: after [target = std::move(source)] the source writer is closed, and
    in every later sequence of calls on it [AcquirePayloadBuffer] returns the
    empty span, [ReleasePayloadBuffer] returns [FAILED_PRECONDITION], and
    [Finish] does nothing: the writer and the channel, with what it has sent,
    stay as they were. *)
Theorem C10_moved_from_writer_is_closed
    (target source : BaseServerWriter.t) (c : Channel.t)
    (ops : list BaseServerWriter.Op) :
  let source' := snd (BaseServerWriter.move_assign target source) in
  BaseServerWriter.state_ source' = BaseServerWriter.kClosed
  /\ BaseServerWriter.open source' = false
  /\ BaseServerWriter.call_ops source' c ops
     = (map BaseServerWriter.closed_ret ops, source', c)
  /\ BaseServerWriter.AcquirePayloadBuffer source' c = (empty_span, source')
  /\ (forall payload,
        BaseServerWriter.ReleasePayloadBuffer source' c payload
        = (FAILED_PRECONDITION, source', c))
  /\ BaseServerWriter.Finish source' c = (source', c).
Proof.
  cbv zeta. cbn [BaseServerWriter.move_assign snd].
  repeat split.
  apply closed_writer_call_ops. reflexivity.
Qed.

(** ** pw_transfer client *)

(** C6: the configuration setters validate their arguments.
    [set_extend_window_divisor(d)] returns [InvalidArgument] for every
    [d <= 1] and [Ok] otherwise; [set_max_retries(r)] returns
    [InvalidArgument] for every [r < 1] and every [r] above the current
    [max_lifetime_retries], and [Ok] otherwise;
    [set_max_lifetime_retries(x)] returns [InvalidArgument] for every [x]
    below the current [max_retries] and [Ok] otherwise.  On [InvalidArgument]
    the client is unchanged; on [Ok] the value is stored. *)
Theorem C6_setters_validate (c : transfer.Client) (d r x : Z) :
  (d <= 1 -> transfer.set_extend_window_divisor c d = (INVALID_ARGUMENT, c))
  /\ (1 < d ->
      fst (transfer.set_extend_window_divisor c d) = OK
      /\ transfer.extend_window_divisor
           (transfer.max_parameters_
              (snd (transfer.set_extend_window_divisor c d))) = d)
  /\ (r < 1 \/ transfer.max_lifetime_retries_ c < r ->
      transfer.set_max_retries c r = (INVALID_ARGUMENT, c))
  /\ (1 <= r <= transfer.max_lifetime_retries_ c ->
      fst (transfer.set_max_retries c r) = OK
      /\ transfer.max_retries_ (snd (transfer.set_max_retries c r)) = r)
  /\ (x < transfer.max_retries_ c ->
      transfer.set_max_lifetime_retries c x = (INVALID_ARGUMENT, c))
  /\ (transfer.max_retries_ c <= x ->
      fst (transfer.set_max_lifetime_retries c x) = OK
      /\ transfer.max_lifetime_retries_
           (snd (transfer.set_max_lifetime_retries c x)) = x).
Proof.
  unfold transfer.set_extend_window_divisor, transfer.set_max_retries,
    transfer.set_max_lifetime_retries.
  repeat split.
  - destruct (Z.leb_spec d 1); [reflexivity | lia].
  - destruct (Z.leb_spec d 1); [lia | reflexivity].
  - destruct (Z.leb_spec d 1); [lia | reflexivity].
  - destruct (Z.ltb_spec r 1); [reflexivity |].
    destruct (Z.gtb_spec r (transfer.max_lifetime_retries_ c));
      [reflexivity | lia].
  - destruct (Z.ltb_spec r 1); [lia |].
    destruct (Z.gtb_spec r (transfer.max_lifetime_retries_ c));
      [lia | reflexivity].
  - destruct (Z.ltb_spec r 1); [lia |].
    destruct (Z.gtb_spec r (transfer.max_lifetime_retries_ c));
      [lia | reflexivity].
  - destruct (Z.ltb_spec x (transfer.max_retries_ c)); [reflexivity | lia].
  - destruct (Z.ltb_spec x (transfer.max_retries_ c)); [lia | reflexivity].
  - destruct (Z.ltb_spec x (transfer.max_retries_ c)); [lia | reflexivity].
Qed.

Lemma C6_witness_rejected_arguments :
  transfer.set_extend_window_divisor example_client 1
  = (INVALID_ARGUMENT, example_client)
  /\ transfer.set_max_retries example_client 0
     = (INVALID_ARGUMENT, example_client)
  /\ transfer.set_max_retries example_client 1501
     = (INVALID_ARGUMENT, example_client)
  /\ transfer.set_max_lifetime_retries example_client 2
     = (INVALID_ARGUMENT, example_client)
  /\ fst (transfer.set_extend_window_divisor example_client 2) = OK
  /\ fst (transfer.set_max_retries example_client 1500) = OK
  /\ fst (transfer.set_max_lifetime_retries example_client 3) = OK.
Proof.
  destruct (C6_setters_validate example_client 1 0 2)
    as (Hd & _ & Hr & _ & Hx & _).
  destruct (C6_setters_validate example_client 2 1501 3)
    as (_ & Hd' & Hr' & _ & _ & Hx').
  destruct (C6_setters_validate example_client 2 1500 3)
    as (_ & _ & _ & Hr'' & _ & _).
  split; [apply Hd; lia |].
  split; [apply Hr; left; lia |].
  split; [apply Hr'; right; vm_compute; reflexivity |].
  split; [apply Hx; vm_compute; reflexivity |].
  split; [apply Hd'; lia |].
  split; [apply Hr''; vm_compute; split; discriminate |].
  apply Hx'. vm_compute. discriminate.
Defined.

(** C7: [CancelTransfer] with a default-constructed handle (id 0) changes
    neither the client nor the transfer thread, so nothing is enqueued; with
    an assigned handle it appends exactly one cancel event, for that handle,
    to the thread's queue and leaves the client as it was. *)
Theorem C7_cancel_unassigned_is_noop (c : transfer.Client)
    (tt : transfer.TransferThread) (h : transfer.TransferHandle) :
  transfer.CancelTransfer c tt transfer.TransferHandle_default = (c, tt)
  /\ (transfer.id h <> 0 ->
      fst (transfer.CancelTransfer c tt h) = c
      /\ transfer.work_queue (snd (transfer.CancelTransfer c tt h))
         = transfer.work_queue tt ++ [transfer.Event.CancelTransfer (transfer.id h)]
      /\ length (filter transfer.is_cancel
                   (transfer.work_queue (snd (transfer.CancelTransfer c tt h))))
         = S (length (filter transfer.is_cancel (transfer.work_queue tt)))
      /\ transfer.max_chunk_size (snd (transfer.CancelTransfer c tt h))
         = transfer.max_chunk_size tt).
Proof.
  split; [reflexivity |].
  intros Hid. unfold transfer.CancelTransfer, transfer.is_unassigned,
    transfer.kUnassignedHandleId.
  unfold transfer.id in Hid.
  destruct (Z.eqb_spec (transfer.id_ h) 0) as [H0 | _]; [contradiction |].
  cbn. repeat split.
  rewrite filter_app, length_app. cbn. lia.
Qed.

Lemma C7_witness_assigned_handle :
  transfer.CancelTransfer example_client example_thread
    transfer.TransferHandle_default = (example_client, example_thread)
  /\ transfer.work_queue
       (snd (transfer.CancelTransfer example_client example_thread
               {| transfer.id_ := 7 |}))
     = [transfer.Event.CancelTransfer 7].
Proof.
  destruct (C7_cancel_unassigned_is_noop example_client example_thread
              {| transfer.id_ := 7 |}) as (Hnoop & Hassigned).
  split; [exact Hnoop |].
  destruct Hassigned as (_ & Hq & _); [discriminate | exact Hq].
Defined.

(** C8: a client constructed with [max_bytes_to_receive] equal to 0 stores
    the transfer thread's [max_chunk_size()] as its window size; constructed
    with [max_bytes_to_receive > 0] it stores [max_bytes_to_receive]. *)
Theorem C8_window_defaults_to_chunk_size
    (kDefaultExtendWindowDivisor kDefaultMaxClientRetries
       kDefaultMaxLifetimeRetries : Z)
    (channel_id : Z) (tt : transfer.TransferThread)
    (max_bytes_to_receive extend_window_divisor : Z) :
  let client :=
    transfer.Client_new kDefaultMaxClientRetries kDefaultMaxLifetimeRetries
      channel_id tt max_bytes_to_receive extend_window_divisor in
  (max_bytes_to_receive = 0 ->
   transfer.max_window_size_bytes (transfer.max_parameters_ client)
   = transfer.max_chunk_size tt)
  /\ (0 < max_bytes_to_receive ->
      transfer.max_window_size_bytes (transfer.max_parameters_ client)
      = max_bytes_to_receive)
  /\ transfer.max_window_size_bytes
       (transfer.max_parameters_
          (transfer.Client_new_default kDefaultExtendWindowDivisor
             kDefaultMaxClientRetries kDefaultMaxLifetimeRetries
             channel_id tt))
     = transfer.max_chunk_size tt.
Proof.
  cbv zeta. unfold transfer.Client_new_default, transfer.Client_new. cbn.
  repeat split.
  - intros ->. reflexivity.
  - intros Hpos. destruct (Z.gtb_spec max_bytes_to_receive 0);
      [reflexivity | lia].
Qed.

Lemma C8_witness_windows :
  transfer.max_window_size_bytes
    (transfer.max_parameters_ (transfer.Client_new 3 1500 1 example_thread 0 32))
  = 512
  /\ transfer.max_window_size_bytes
       (transfer.max_parameters_
          (transfer.Client_new 3 1500 1 example_thread 8192 32))
     = 8192.
Proof.
  split.
  - destruct (C8_window_defaults_to_chunk_size 32 3 1500 1 example_thread 0 32)
      as (Hzero & _ & _).
    apply Hzero. reflexivity.
  - destruct (C8_window_defaults_to_chunk_size 32 3 1500 1 example_thread
                8192 32) as (_ & Hpos & _).
    apply Hpos. lia.
Defined.

(** ** Persistent<T> *)

Section PersistentProperties.

Context {T : Type} (as_bytes : T -> list Z)
        (Crc16Ccitt_Calculate : list Z -> Z).

Let has_value := persistent_ram.has_value as_bytes Crc16Ccitt_Calculate.
Let value := persistent_ram.value as_bytes Crc16Ccitt_Calculate.

Lemma has_value_iff (p : persistent_ram.Persistent T) :
  has_value p = true
  <-> persistent_ram.crc_ p
      = Crc16Ccitt_Calculate (as_bytes (persistent_ram.contents_ p)).
Proof. apply Z.eqb_eq. Qed.

(** What a write of [v] leaves behind while it is under way (the value is
    stored, the tag is still the old one) and once it is complete. *)
Lemma write_states (p : persistent_ram.Persistent T) (v : T) (n : nat) :
  fold_left persistent_ram.perform
    (firstn n
       [persistent_ram.WriteContents v; persistent_ram.ReadContents;
        persistent_ram.WriteCrc (Crc16Ccitt_Calculate (as_bytes v))]) p
  = match n with
    | 0%nat => p
    | 1%nat | 2%nat =>
        {| persistent_ram.contents_ := v;
           persistent_ram.crc_ := persistent_ram.crc_ p |}
    | _ =>
        {| persistent_ram.contents_ := v;
           persistent_ram.crc_ := Crc16Ccitt_Calculate (as_bytes v) |}
    end.
Proof. destruct n as [| [| [| [| n]]]]; reflexivity. Qed.

(** C9: [has_value()] is true if and only if the stored CRC16 tag equals
    the CRC16 computed over the bytes of the current contents.  [emplace]
    and assignment make three accesses, of which the first stores the value
    and the last stores the tag: after one or two of them the object holds
    the written value under the old tag, and after all three it holds the
    written value under the CRC16 of its bytes.  So once either completes,
    [has_value()] is true and [value()] is the written value. *)
Theorem C9_persistent_tag_last (p : persistent_ram.Persistent T) (v : T) :
  (has_value p = true
   <-> persistent_ram.crc_ p
       = Crc16Ccitt_Calculate (as_bytes (persistent_ram.contents_ p)))
  /\ (let '(p', returned, accesses) :=
        persistent_ram.emplace as_bytes Crc16Ccitt_Calculate p v in
      p' = {| persistent_ram.contents_ := v;
              persistent_ram.crc_ := Crc16Ccitt_Calculate (as_bytes v) |}
      /\ returned = v
      /\ length accesses = 3%nat
      /\ (forall n, (0 < n < 3)%nat ->
            fold_left persistent_ram.perform (firstn n accesses) p
            = {| persistent_ram.contents_ := v;
                 persistent_ram.crc_ := persistent_ram.crc_ p |})
      /\ fold_left persistent_ram.perform accesses p = p'
      /\ has_value p' = true
      /\ value p' = Some v)
  /\ (let '(p', accesses) :=
        persistent_ram.assign as_bytes Crc16Ccitt_Calculate p v in
      p' = {| persistent_ram.contents_ := v;
              persistent_ram.crc_ := Crc16Ccitt_Calculate (as_bytes v) |}
      /\ length accesses = 3%nat
      /\ (forall n, (0 < n < 3)%nat ->
            fold_left persistent_ram.perform (firstn n accesses) p
            = {| persistent_ram.contents_ := v;
                 persistent_ram.crc_ := persistent_ram.crc_ p |})
      /\ fold_left persistent_ram.perform accesses p = p'
      /\ has_value p' = true
      /\ value p' = Some v).
Proof.
  split; [apply has_value_iff |].
  assert (Hv : has_value
                 {| persistent_ram.contents_ := v;
                    persistent_ram.crc_ :=
                      Crc16Ccitt_Calculate (as_bytes v) |} = true)
    by (apply has_value_iff; reflexivity).
  assert (Hval : value
                   {| persistent_ram.contents_ := v;
                      persistent_ram.crc_ :=
                        Crc16Ccitt_Calculate (as_bytes v) |} = Some v).
  { unfold value, persistent_ram.value. fold has_value. rewrite Hv.
    reflexivity. }
  assert (Hprefix : forall n, (0 < n < 3)%nat ->
            fold_left persistent_ram.perform
              (firstn n
                 [persistent_ram.WriteContents v; persistent_ram.ReadContents;
                  persistent_ram.WriteCrc
                    (Crc16Ccitt_Calculate (as_bytes v))]) p
            = {| persistent_ram.contents_ := v;
                 persistent_ram.crc_ := persistent_ram.crc_ p |}).
  { intros n Hn. rewrite write_states.
    destruct n as [| [| [| n]]]; try reflexivity; lia. }
  unfold persistent_ram.emplace, persistent_ram.assign, persistent_ram.Crc.
  cbn [persistent_ram.contents_ persistent_ram.store_contents
       persistent_ram.store_crc].
  split.
  - split; [reflexivity |]. split; [reflexivity |]. split; [reflexivity |].
    split; [exact Hprefix |]. split; [reflexivity |].
    split; [exact Hv | exact Hval].
  - split; [reflexivity |]. split; [reflexivity |].
    split; [exact Hprefix |]. split; [reflexivity |].
    split; [exact Hv | exact Hval].
Qed.

End PersistentProperties.

(** A [Persistent<uint32_t>] holding garbage after boot, then written, then
    with one bit of its contents flipped behind its back. *)
Lemma C9_witness_uint32 :
  let as_bytes := persistent_ram.uint32_as_bytes in
  let crc := persistent_ram.crc16_ccitt in
  let garbage := {| persistent_ram.contents_ := 305419896;
                    persistent_ram.crc_ := 0 |} in
  let written := fst (persistent_ram.assign as_bytes crc garbage 3735928559) in
  let flipped := {| persistent_ram.contents_ := 3735928558;
                    persistent_ram.crc_ := persistent_ram.crc_ written |} in
  persistent_ram.has_value as_bytes crc garbage <> true
  /\ persistent_ram.value as_bytes crc written = Some 3735928559
  /\ persistent_ram.has_value as_bytes crc flipped <> true.
Proof.
  cbv zeta.
  pose proof (C9_persistent_tag_last persistent_ram.uint32_as_bytes
                persistent_ram.crc16_ccitt
                {| persistent_ram.contents_ := 305419896;
                   persistent_ram.crc_ := 0 |} 3735928559)
    as (Hgarbage & _ & Hassign).
  destruct (persistent_ram.assign persistent_ram.uint32_as_bytes
              persistent_ram.crc16_ccitt
              {| persistent_ram.contents_ := 305419896;
                 persistent_ram.crc_ := 0 |} 3735928559) as [p' accesses].
  destruct Hassign as (Hp' & _ & _ & _ & _ & Hvalue).
  cbn [fst].
  split.
  { intros Htrue. apply Hgarbage in Htrue. vm_compute in Htrue.
    discriminate Htrue. }
  split; [exact Hvalue |].
  intros Htrue.
  apply (C9_persistent_tag_last persistent_ram.uint32_as_bytes
           persistent_ram.crc16_ccitt
           {| persistent_ram.contents_ := 3735928558;
              persistent_ram.crc_ := persistent_ram.crc_ p' |} 0) in Htrue.
  rewrite Hp' in Htrue. vm_compute in Htrue. discriminate Htrue.
Defined.

(** ** The call state machine *)

Lemma Call_run_cons (side : Call.Side) (s : Call.State) (e : Call.Event)
    (es : list Call.Event) :
  Call.run side s (e :: es)
  = (fst (Call.run side (fst (Call.step side s e)) es),
     snd (Call.step side s e)
       ++ snd (Call.run side (fst (Call.step side s e)) es)).
Proof.
  cbn [Call.run].
  destruct (Call.step side s e) as [s1 fx1]. cbn [fst snd].
  destruct (Call.run side s1 es) as [s2 fx2]. reflexivity.
Qed.

(** A closed call drops everything. *)
Lemma Call_run_Closed (side : Call.Side) (es : list Call.Event) :
  Call.run side Call.Closed es = (Call.Closed, []).
Proof.
  induction es as [| e es IH]; [reflexivity |].
  rewrite Call_run_cons.
  replace (Call.step side Call.Closed e) with (Call.Closed, @nil Call.Effect)
    by (destruct e; reflexivity).
  cbn [fst snd]. rewrite IH. reflexivity.
Qed.

(** One step of an open call: either it stays open and invokes neither
    [on_completed] nor [on_error], or it closes with at most one effect, which
    is such a callback exactly when [closing] says so. *)
Lemma Call_step_open (side : Call.Side) (s : Call.State) (e : Call.Event)
    (es : list Call.Event) :
  Call.is_open s = true ->
  (Call.is_open (fst (Call.step side s e)) = true
   /\ Call.terminations (snd (Call.step side s e)) = 0%nat
   /\ Call.closing (e :: es) = Call.closing es
   /\ (length (snd (Call.step side s e)) <= 1)%nat)
  \/ (fst (Call.step side s e) = Call.Closed
      /\ (length (snd (Call.step side s e)) <= 1)%nat
      /\ ((Call.terminations (snd (Call.step side s e)) = 1%nat
           /\ Call.closing (e :: es) = Some true)
          \/ (Call.terminations (snd (Call.step side s e)) = 0%nat
              /\ existsb Call.is_on_next (snd (Call.step side s e)) = false
              /\ Call.closing (e :: es) = Some false))).
Proof.
  intros Hopen.
  destruct s; try discriminate Hopen; destruct e, side; cbn;
    first [ left; repeat split; lia
          | right; split; [reflexivity |]; split; [lia |];
            first [ left; split; reflexivity
                  | right; repeat split; reflexivity ] ].
Qed.

Lemma terminations_app (fx1 fx2 : list Call.Effect) :
  Call.terminations (fx1 ++ fx2)
  = (Call.terminations fx1 + Call.terminations fx2)%nat.
Proof.
  unfold Call.terminations. rewrite filter_app, length_app. reflexivity.
Qed.

Lemma no_next_after_single (f : Call.Effect) (fx : list Call.Effect) :
  Call.is_termination f = false ->
  Call.no_next_after_termination (f :: fx)
  = Call.no_next_after_termination fx.
Proof. intros Hf. cbn [Call.no_next_after_termination]. now rewrite Hf. Qed.

(** The run of an open call. *)
Lemma Call_run_open (side : Call.Side) (es : list Call.Event) :
  forall s, Call.is_open s = true ->
  Call.terminations (snd (Call.run side s es)) = Call.expected_terminations es
  /\ Call.no_next_after_termination (snd (Call.run side s es)) = true
  /\ (Call.closing es = None ->
      Call.is_open (fst (Call.run side s es)) = true)
  /\ (Call.closing es <> None ->
      fst (Call.run side s es) = Call.Closed).
Proof.
  induction es as [| e es IH]; intros s Hopen.
  - cbn. repeat split; [intros _; assumption | intros H; now elim H].
  - rewrite Call_run_cons. cbn [fst snd].
    destruct (Call_step_open side s e es Hopen)
      as [(Hstay & Hterm & Hclosing & Hlen)
         | (Hclosed & Hlen & Hkind)].
    + specialize (IH _ Hstay). destruct IH as (IHt & IHn & IHo & IHc).
      rewrite terminations_app, Hterm, IHt.
      unfold Call.expected_terminations. rewrite Hclosing.
      repeat split; try reflexivity; try assumption.
      destruct (snd (Call.step side s e)) as [| f [| g fx]] eqn:Hfx;
        cbn [app]; [assumption | | cbn in Hlen; lia].
      rewrite no_next_after_single; [assumption |].
      unfold Call.terminations in Hterm. cbn in Hterm.
      destruct (Call.is_termination f); [discriminate | reflexivity].
    + rewrite Hclosed, Call_run_Closed. cbn [fst snd].
      rewrite app_nil_r. unfold Call.expected_terminations.
      destruct Hkind as [(Hterm & Hclosing) | (Hterm & Hnext & Hclosing)];
        rewrite Hclosing, Hterm;
        (repeat split; try reflexivity; try discriminate);
        destruct (snd (Call.step side s e)) as [| f [| g fx]];
        try reflexivity; try (cbn in Hlen; lia);
        cbn; destruct (Call.is_termination f); reflexivity.
Qed.

(** In a list that passes the check, nothing after a termination callback is
    an [on_next]. *)
Lemma no_next_after_termination_spec (fx : list Call.Effect) :
  Call.no_next_after_termination fx = true ->
  forall before f after g,
    fx = before ++ f :: after -> Call.is_termination f = true ->
    In g after -> Call.is_on_next g = false.
Proof.
  induction fx as [| h fx IH]; intros Hcheck before f after g Hsplit Hf Hin.
  - destruct before; discriminate Hsplit.
  - cbn [Call.no_next_after_termination] in Hcheck.
    apply andb_true_iff in Hcheck. destruct Hcheck as [Hhead Htail].
    destruct before as [| b before]; cbn [app] in Hsplit;
      injection Hsplit as -> ->.
    + rewrite Hf in Hhead. apply negb_true_iff in Hhead.
      destruct (Call.is_on_next g) eqn:Hg; [| reflexivity].
      assert (existsb Call.is_on_next after = true)
        by (apply existsb_exists; exists g; auto).
      congruence.
    + eapply IH; eauto.
Qed.

(** C1 (as the specification words it), refuted: in Scenario B the call is
    started, receives two stream payloads and is cancelled locally; the run
    closes the call and invokes neither [on_completed] nor [on_error]. *)
Lemma C1_cancelled_call_has_no_termination_callback :
  Call.run Call.Client Call.Idle Call.scenario_B
  = (Call.Closed,
     [Call.send_initial; Call.on_next [1]; Call.on_next [2];
      Call.send Packet.ClientError CANCELLED])
  /\ Call.terminations (snd (Call.run Call.Client Call.Idle Call.scenario_B))
     = 0%nat.
Proof. split; reflexivity. Qed.

(** C1, amended: for every call that was started successfully, over the
    whole run [on_completed] and [on_error] are invoked at most once in
    total: exactly once when the first event that closes the call is an
    inbound terminal or error packet, and not at all when the call is closed
    locally by [Cancel] or [Abandon] or is never closed; [on_next] is never
    invoked after either of them. *)
Theorem C1_callback_exclusivity (side : Call.Side) (es : list Call.Event) :
  let fx := snd (Call.run side Call.Idle (Call.Start :: es)) in
  (Call.terminations fx <= 1)%nat
  /\ (Call.terminations fx = 1%nat <-> Call.closing es = Some true)
  /\ (Call.terminations fx = 0%nat <-> Call.closing es <> Some true)
  /\ Call.no_next_after_termination fx = true
  /\ (forall before f after g,
        fx = before ++ f :: after -> Call.is_termination f = true ->
        In g after -> Call.is_on_next g = false).
Proof.
  intros fx.
  assert (Hfx : fx = Call.send_initial
                       :: snd (Call.run side Call.Active es)).
  { subst fx. rewrite Call_run_cons. reflexivity. }
  destruct (Call_run_open side es Call.Active eq_refl)
    as (Hterm & Hnext & _ & _).
  assert (Hcount : Call.terminations fx = Call.expected_terminations es).
  { rewrite Hfx. change (Call.send_initial :: ?l)
      with ([Call.send_initial] ++ l).
    rewrite terminations_app, Hterm. reflexivity. }
  assert (Hcheck : Call.no_next_after_termination fx = true).
  { rewrite Hfx. rewrite no_next_after_single; [assumption | reflexivity]. }
  rewrite Hcount. unfold Call.expected_terminations.
  split; [destruct (Call.closing es) as [[|]|]; lia |].
  split; [destruct (Call.closing es) as [[|]|]; split; intros;
          try reflexivity; try discriminate; congruence |].
  split; [destruct (Call.closing es) as [[|]|]; split; intros;
          try reflexivity; try discriminate; congruence |].
  split; [exact Hcheck |].
  apply no_next_after_termination_spec. exact Hcheck.
Qed.

(** Scenario A: the unary call completes through [on_completed] once. *)
Lemma C1_witness_scenario_A :
  Call.closing [Call.TerminalPacketIn [187] OK] = Some true
  /\ Call.terminations (snd (Call.run Call.Client Call.Idle Call.scenario_A))
     = 1%nat.
Proof.
  split; [reflexivity |].
  destruct (C1_callback_exclusivity Call.Client [Call.TerminalPacketIn [187] OK])
    as (_ & Hone & _).
  apply Hone. reflexivity.
Defined.

(** ** Further properties of the server writer *)

Lemma call_op_state (w : BaseServerWriter.t) (c : Channel.t)
    (o : BaseServerWriter.Op) :
  BaseServerWriter.call_ (snd (fst (BaseServerWriter.call_op w c o)))
  = BaseServerWriter.call_ w
  /\ BaseServerWriter.state_ (snd (fst (BaseServerWriter.call_op w c o)))
     = if Op_is_Finish o then BaseServerWriter.kClosed
       else BaseServerWriter.state_ w.
Proof.
  destruct o as [| | payload]; cbn [BaseServerWriter.call_op Op_is_Finish];
    unfold BaseServerWriter.Finish, BaseServerWriter.AcquirePayloadBuffer,
      BaseServerWriter.ReleasePayloadBuffer, BaseServerWriter.open.
  - destruct (BaseServerWriter.state_ w) eqn:Hstate; cbn; auto.
  - destruct (BaseServerWriter.state_ w) eqn:Hstate; cbn; auto.
  - destruct (BaseServerWriter.state_ w) eqn:Hstate; cbn [negb]; cbn iota.
    + destruct (Channel.Send c (BaseServerWriter.response_ w)
                  (BaseServerWriter.packet w c payload)) as [[st c'] b].
      cbn. auto.
    + cbn. auto.
Qed.

Lemma call_ops_cons (w : BaseServerWriter.t) (c : Channel.t)
    (o : BaseServerWriter.Op) (ops : list BaseServerWriter.Op) :
  snd (fst (BaseServerWriter.call_ops w c (o :: ops)))
  = snd (fst (BaseServerWriter.call_ops
                (snd (fst (BaseServerWriter.call_op w c o)))
                (snd (BaseServerWriter.call_op w c o)) ops)).
Proof.
  cbn [BaseServerWriter.call_ops].
  destruct (BaseServerWriter.call_op w c o) as [[r w1] c1]. cbn [fst snd].
  destruct (BaseServerWriter.call_ops w1 c1 ops) as [[rs w2] c2]. reflexivity.
Qed.

(** X1: whatever sequence of [Finish], [AcquirePayloadBuffer] and
    [ReleasePayloadBuffer] calls is made on a writer, its call (service and
    method) never changes, and its state afterwards is closed if the
    sequence contains a [Finish] and is the state it started in otherwise:
    an open writer stays open through every acquire and release, also
    through a release whose send fails. *)
Theorem X1_writer_state_after_calls (ops : list BaseServerWriter.Op) :
  forall (w : BaseServerWriter.t) (c : Channel.t),
  let w' := snd (fst (BaseServerWriter.call_ops w c ops)) in
  BaseServerWriter.call_ w' = BaseServerWriter.call_ w
  /\ BaseServerWriter.state_ w'
     = if existsb Op_is_Finish ops then BaseServerWriter.kClosed
       else BaseServerWriter.state_ w.
Proof.
  induction ops as [| o ops IH]; intros w c; cbv zeta.
  - cbn. auto.
  - rewrite call_ops_cons.
    destruct (call_op_state w c o) as [Hcall Hstate].
    specialize (IH (snd (fst (BaseServerWriter.call_op w c o)))
                  (snd (BaseServerWriter.call_op w c o))).
    cbv zeta in IH. destruct IH as [IHcall IHstate].
    split; [congruence |].
    rewrite IHstate, Hstate. cbn [existsb].
    destruct (Op_is_Finish o); cbn [orb];
      [destruct (existsb Op_is_Finish ops); reflexivity | reflexivity].
Qed.

(** The assignment between two distinct writers in memory leaves what
    [move_assign] returns, and nothing else changes. *)
Lemma operator_assign_distinct (m : BaseServerWriter.Memory) (this other : Z)
    (t o : BaseServerWriter.t) :
  this <> other -> m this = Some t -> m other = Some o ->
  exists m',
    BaseServerWriter.operator_assign m this other = Some m'
    /\ m' this = Some (fst (BaseServerWriter.move_assign t o))
    /\ m' other = Some (snd (BaseServerWriter.move_assign t o))
    /\ (forall x, x <> this -> x <> other -> m' x = m x).
Proof.
  intros Hne Ht Ho.
  assert (Hto : (this =? other) = false) by (apply Z.eqb_neq; exact Hne).
  assert (Hot : (other =? this) = false)
    by (apply Z.eqb_neq; intros ->; now apply Hne).
  unfold BaseServerWriter.operator_assign, BaseServerWriter.write.
  rewrite Ht, Ho. cbn beta zeta. rewrite !Z.eqb_refl, ?Hto, ?Hot, ?Ho.
  cbn beta iota zeta.
  cbn [BaseServerWriter.call_ BaseServerWriter.response_
         BaseServerWriter.state_].
  eexists. split; [reflexivity |]. cbn beta.
  rewrite !Z.eqb_refl, ?Hto, ?Hot. repeat split.
  intros x Hx1 Hx2. apply Z.eqb_neq in Hx1, Hx2. rewrite Hx1, Hx2.
  reflexivity.
Qed.

(** The self-assignment [w = std::move(w)] keeps the call and the response
    buffer and closes the writer: the last store is [state_ = kClosed]. *)
Lemma operator_assign_self (m : BaseServerWriter.Memory) (a : Z)
    (w : BaseServerWriter.t) :
  m a = Some w ->
  exists m',
    BaseServerWriter.operator_assign m a a = Some m'
    /\ m' a = Some {| BaseServerWriter.call_ := BaseServerWriter.call_ w;
                      BaseServerWriter.response_ :=
                        BaseServerWriter.response_ w;
                      BaseServerWriter.state_ := BaseServerWriter.kClosed |}
    /\ (forall x, x <> a -> m' x = m x).
Proof.
  intros Hw.
  unfold BaseServerWriter.operator_assign, BaseServerWriter.write.
  rewrite Hw. cbn beta zeta. rewrite !Z.eqb_refl. cbn beta iota zeta.
  cbn [BaseServerWriter.call_ BaseServerWriter.response_
         BaseServerWriter.state_].
  eexists. split; [reflexivity |]. cbn beta. rewrite !Z.eqb_refl.
  split; [reflexivity |].
  intros x Hx. apply Z.eqb_neq in Hx. rewrite Hx. reflexivity.
Qed.

(** X2: after [target = std::move(source)] between two distinct writers the
    target answers every later sequence of calls exactly as the source would
    have before the move, whatever state the target was in, and the source
    is closed.  After the self-assignment [w = std::move(w)] the writer is
    closed and answers as a closed writer.  No other writer in memory
    changes. *)
Theorem X2_move_transfers_the_stream (m : BaseServerWriter.Memory)
    (this other : Z) (t o : BaseServerWriter.t) (c : Channel.t)
    (ops : list BaseServerWriter.Op) :
  m this = Some t -> m other = Some o ->
  exists m' t' o',
    BaseServerWriter.operator_assign m this other = Some m'
    /\ m' this = Some t' /\ m' other = Some o'
    /\ BaseServerWriter.open o' = false
    /\ (this <> other ->
        BaseServerWriter.call_ops t' c ops = BaseServerWriter.call_ops o c ops)
    /\ (this = other ->
        BaseServerWriter.open t' = false
        /\ BaseServerWriter.call_ops t' c ops
           = (map BaseServerWriter.closed_ret ops, t', c))
    /\ (forall x, x <> this -> x <> other -> m' x = m x).
Proof.
  intros Ht Ho.
  destruct (Z.eq_dec this other) as [Heq | Hne].
  - subst other.
    destruct (operator_assign_self m this t Ht) as (m' & Hm' & Hthis & Hrest).
    exists m'. eexists. eexists.
    split; [exact Hm' |]. split; [exact Hthis |]. split; [exact Hthis |].
    split; [reflexivity |].
    split; [intros Hne; now elim Hne |].
    split.
    + intros _. split; [reflexivity |].
      apply closed_writer_call_ops. reflexivity.
    + intros x Hx _. apply Hrest. exact Hx.
  - destruct (operator_assign_distinct m this other t o Hne Ht Ho)
      as (m' & Hm' & Hthis & Hother & Hrest).
    exists m'. eexists. eexists.
    split; [exact Hm' |]. split; [exact Hthis |]. split; [exact Hother |].
    split; [reflexivity |].
    split.
    + intros _. replace (fst (BaseServerWriter.move_assign t o)) with o
        by (destruct o; reflexivity).
      reflexivity.
    + split; [intros Heq; now elim Hne | exact Hrest].
Qed.

(** An open writer at address 20 moved into a closed one at address 10, and
    an open writer at address 20 moved into itself. *)
Lemma X2_witness_distinct_and_self :
  let call := {| BaseServerWriter.service_id := 42;
                 BaseServerWriter.method_id := 100 |} in
  let opened := {| BaseServerWriter.call_ := call;
                   BaseServerWriter.response_ := Channel.OutputBuffer_default;
                   BaseServerWriter.state_ := BaseServerWriter.kOpen |} in
  let closed := {| BaseServerWriter.call_ := call;
                   BaseServerWriter.response_ := Channel.OutputBuffer_default;
                   BaseServerWriter.state_ := BaseServerWriter.kClosed |} in
  let m := BaseServerWriter.write
             (BaseServerWriter.write (fun _ => None) 10 closed) 20 opened in
  (exists m', BaseServerWriter.operator_assign m 10 20 = Some m'
              /\ m' 10 = Some opened /\ m' 20 = Some closed)
  /\ (exists m', BaseServerWriter.operator_assign m 20 20 = Some m'
                 /\ m' 20 = Some closed /\ m' 10 = Some closed).
Proof.
  cbv zeta. split.
  - destruct (X2_move_transfers_the_stream
                (BaseServerWriter.write
                   (BaseServerWriter.write (fun _ => None) 10
                      {| BaseServerWriter.call_ :=
                           {| BaseServerWriter.service_id := 42;
                              BaseServerWriter.method_id := 100 |};
                         BaseServerWriter.response_ :=
                           Channel.OutputBuffer_default;
                         BaseServerWriter.state_ :=
                           BaseServerWriter.kClosed |})
                   20
                   {| BaseServerWriter.call_ :=
                        {| BaseServerWriter.service_id := 42;
                           BaseServerWriter.method_id := 100 |};
                      BaseServerWriter.response_ :=
                        Channel.OutputBuffer_default;
                      BaseServerWriter.state_ := BaseServerWriter.kOpen |})
                10 20 _ _
                {| Channel.id := 1; Channel.output := TestOutput 0 64 |} []
                eq_refl eq_refl)
      as (m' & t' & o' & Hm' & Hthis & Hother & _).
    exists m'. split; [exact Hm' |].
    vm_compute in Hm'. injection Hm' as <-. split; reflexivity.
  - destruct (X2_move_transfers_the_stream
                (BaseServerWriter.write
                   (BaseServerWriter.write (fun _ => None) 10
                      {| BaseServerWriter.call_ :=
                           {| BaseServerWriter.service_id := 42;
                              BaseServerWriter.method_id := 100 |};
                         BaseServerWriter.response_ :=
                           Channel.OutputBuffer_default;
                         BaseServerWriter.state_ :=
                           BaseServerWriter.kClosed |})
                   20
                   {| BaseServerWriter.call_ :=
                        {| BaseServerWriter.service_id := 42;
                           BaseServerWriter.method_id := 100 |};
                      BaseServerWriter.response_ :=
                        Channel.OutputBuffer_default;
                      BaseServerWriter.state_ := BaseServerWriter.kOpen |})
                20 20 _ _
                {| Channel.id := 1; Channel.output := TestOutput 0 64 |} []
                eq_refl eq_refl)
      as (m' & t' & o' & Hm' & Hthis & Hother & _).
    exists m'. split; [exact Hm' |].
    vm_compute in Hm'. injection Hm' as <-. split; reflexivity.
Defined.

(** X3: [Finish] leaves the channel as it was, is idempotent, and after it
    every later call on the writer returns what a closed writer returns
    (an empty span, [FAILED_PRECONDITION], nothing) without touching the
    writer or the channel. *)
Theorem X3_after_Finish_nothing_happens (w : BaseServerWriter.t)
    (c : Channel.t) (ops : list BaseServerWriter.Op) :
  let w' := fst (BaseServerWriter.Finish w c) in
  snd (BaseServerWriter.Finish w c) = c
  /\ BaseServerWriter.Finish w' c = (w', c)
  /\ BaseServerWriter.call_ops w' c ops
     = (map BaseServerWriter.closed_ret ops, w', c).
Proof.
  cbv zeta.
  assert (Hclosed : BaseServerWriter.state_ (fst (BaseServerWriter.Finish w c))
                    = BaseServerWriter.kClosed).
  { unfold BaseServerWriter.Finish, BaseServerWriter.open.
    destruct (BaseServerWriter.state_ w) eqn:Hstate; cbn; auto. }
  split; [apply Finish_closes |].
  split; [| apply closed_writer_call_ops; exact Hclosed].
  pose proof (closed_writer_call_op (fst (BaseServerWriter.Finish w c)) c
                BaseServerWriter.OpFinish Hclosed) as Hop.
  cbn [BaseServerWriter.call_op] in Hop.
  destruct (BaseServerWriter.Finish (fst (BaseServerWriter.Finish w c)) c)
    as [w2 c2].
  injection Hop as -> ->. reflexivity.
Qed.

(** ** The server *)

Lemma RegisterServices_services {Service : Type} (l : list Service) :
  forall s : Server.t Service,
  Server.services_ (Server.RegisterServices s l) = rev l ++ Server.services_ s
  /\ Server.channels_ (Server.RegisterServices s l) = Server.channels_ s.
Proof.
  induction l as [| x l IH]; intros s.
  - split; reflexivity.
  - unfold Server.RegisterServices in *. cbn [fold_left].
    destruct (IH (Server.RegisterService s x)) as [Hs Hc].
    rewrite Hs, Hc. cbn [Server.RegisterService Server.services_
                           Server.channels_ rev].
    rewrite <- app_assoc. split; reflexivity.
Qed.

(** X4: registering services one after the other (none of them twice: an
    intrusive list holds an item once) never changes [channel_count()],
    which stays the number of channels the server was constructed with, and
    leaves the service list with the most recently registered service
    first, followed by the earlier ones. *)
Theorem X4_registering_services {Service : Type} (channels : list Channel.t)
    (registered : list Service) :
  NoDup registered ->
  let s := Server.RegisterServices (Server.new channels) registered in
  Server.channel_count s = Z.of_nat (length channels)
  /\ Server.services_ s = rev registered
  /\ NoDup (Server.services_ s).
Proof.
  intros Hnodup s.
  destruct (RegisterServices_services registered (Server.new channels))
    as [Hs Hc].
  fold s in Hs, Hc. cbn [Server.new Server.services_ Server.channels_] in Hs, Hc.
  rewrite app_nil_r in Hs.
  unfold Server.channel_count. rewrite Hc, Hs.
  repeat split. apply NoDup_rev. exact Hnodup.
Qed.

Lemma X4_witness_three_services :
  let s := Server.RegisterServices
             (Server.new [ {| Channel.id := 1;
                              Channel.output := TestOutput 0 64 |} ])
             [10; 20; 30] in
  Server.channel_count s = 1 /\ Server.services_ s = [30; 20; 10].
Proof.
  destruct (X4_registering_services
              [ {| Channel.id := 1; Channel.output := TestOutput 0 64 |} ]
              [10; 20; 30]) as (Hcount & Hservices & _).
  - repeat constructor; cbn; intuition discriminate.
  - split; [exact Hcount | exact Hservices].
Defined.

(** ** Further properties of the transfer client *)

Lemma apply_preserves_valid (c : transfer.Client)
    (op : transfer_calls.ConfigOp) :
  transfer_calls.retries_valid c -> transfer_calls.divisor_valid c ->
  transfer_calls.retries_valid (snd (transfer_calls.apply c op))
  /\ transfer_calls.divisor_valid (snd (transfer_calls.apply c op)).
Proof.
  unfold transfer_calls.retries_valid, transfer_calls.divisor_valid.
  intros Hr Hd.
  destruct op as [d | r | x | v]; cbn [transfer_calls.apply].
  - unfold transfer.set_extend_window_divisor.
    destruct (Z.leb_spec d 1); cbn; lia.
  - unfold transfer.set_max_retries.
    destruct (Z.ltb_spec r 1); [cbn; lia |].
    destruct (Z.gtb_spec r (transfer.max_lifetime_retries_ c)); cbn; lia.
  - unfold transfer.set_max_lifetime_retries.
    destruct (Z.ltb_spec x (transfer.max_retries_ c)); cbn; lia.
  - cbn. lia.
Qed.

(** X5: the setters keep the configuration consistent.  If the client has
    [1 <= max_retries <= max_lifetime_retries] and an extend-window divisor
    above 1, it still has after any sequence of calls to
    [set_extend_window_divisor], [set_max_retries],
    [set_max_lifetime_retries] and [set_protocol_version], with any
    arguments, accepted or rejected. *)
Theorem X5_setters_keep_configuration_valid
    (ops : list transfer_calls.ConfigOp) :
  forall c : transfer.Client,
  transfer_calls.retries_valid c -> transfer_calls.divisor_valid c ->
  transfer_calls.retries_valid (transfer_calls.apply_all c ops)
  /\ transfer_calls.divisor_valid (transfer_calls.apply_all c ops).
Proof.
  induction ops as [| op ops IH]; intros c Hr Hd.
  - split; assumption.
  - cbn [transfer_calls.apply_all].
    destruct (apply_preserves_valid c op Hr Hd) as [Hr' Hd'].
    apply IH; assumption.
Qed.

Lemma X5_witness_constructed_client :
  let c := transfer_calls.apply_all example_client
             [transfer_calls.SetMaxRetries 2000;
              transfer_calls.SetMaxLifetimeRetries 2;
              transfer_calls.SetMaxLifetimeRetries 5000;
              transfer_calls.SetMaxRetries 2000;
              transfer_calls.SetExtendWindowDivisor 0] in
  transfer_calls.retries_valid c /\ transfer_calls.divisor_valid c.
Proof.
  apply (X5_setters_keep_configuration_valid _ example_client);
    vm_compute; intuition discriminate.
Defined.

Lemma apply_frame (c : transfer.Client) (op : transfer_calls.ConfigOp) :
  let c' := snd (transfer_calls.apply c op) in
  transfer.next_handle_id_ c' = transfer.next_handle_id_ c
  /\ transfer.client_ c' = transfer.client_ c
  /\ transfer.max_window_size_bytes (transfer.max_parameters_ c')
     = transfer.max_window_size_bytes (transfer.max_parameters_ c)
  /\ transfer.max_chunk_size_bytes (transfer.max_parameters_ c')
     = transfer.max_chunk_size_bytes (transfer.max_parameters_ c)
  /\ transfer.has_read_stream_ c' = transfer.has_read_stream_ c
  /\ transfer.has_write_stream_ c' = transfer.has_write_stream_ c.
Proof.
  destruct op as [d | r | x | v]; cbn [transfer_calls.apply].
  - unfold transfer.set_extend_window_divisor.
    destruct (d <=? 1); cbn; repeat split.
  - unfold transfer.set_max_retries.
    destruct ((r <? 1) || (r >? transfer.max_lifetime_retries_ c));
      cbn; repeat split.
  - unfold transfer.set_max_lifetime_retries.
    destruct (x <? transfer.max_retries_ c); cbn; repeat split.
  - cbn. repeat split.
Qed.

(** X6: no sequence of setter calls changes the next handle id, the RPC
    channel, the window size, the chunk size or the stream flags of the
    client; and the default protocol version afterwards is the one the last
    [set_protocol_version] of the sequence gave, or the earlier one when
    there was none. *)
Theorem X6_setters_touch_only_their_field
    (ops : list transfer_calls.ConfigOp) :
  forall c : transfer.Client,
  let c' := transfer_calls.apply_all c ops in
  transfer.next_handle_id_ c' = transfer.next_handle_id_ c
  /\ transfer.client_ c' = transfer.client_ c
  /\ transfer.max_window_size_bytes (transfer.max_parameters_ c')
     = transfer.max_window_size_bytes (transfer.max_parameters_ c)
  /\ transfer.max_chunk_size_bytes (transfer.max_parameters_ c')
     = transfer.max_chunk_size_bytes (transfer.max_parameters_ c)
  /\ transfer.has_read_stream_ c' = transfer.has_read_stream_ c
  /\ transfer.has_write_stream_ c' = transfer.has_write_stream_ c
  /\ transfer.default_protocol_version c'
     = transfer_calls.last_version ops (transfer.default_protocol_version c).
Proof.
  induction ops as [| op ops IH]; intros c; cbv zeta.
  - cbn. repeat split.
  - cbn [transfer_calls.apply_all].
    specialize (IH (snd (transfer_calls.apply c op))). cbv zeta in IH.
    destruct IH as (I1 & I2 & I3 & I4 & I5 & I6 & I7).
    destruct (apply_frame c op) as (F1 & F2 & F3 & F4 & F5 & F6).
    rewrite I1, I2, I3, I4, I5, I6, I7, F1, F2, F3, F4, F5, F6.
    repeat split.
    destruct op as [d | r | x | v]; cbn [transfer_calls.apply
                                           transfer_calls.last_version].
    + unfold transfer.set_extend_window_divisor. destruct (d <=? 1); reflexivity.
    + unfold transfer.set_max_retries.
      destruct ((r <? 1) || (r >? transfer.max_lifetime_retries_ c));
        reflexivity.
    + unfold transfer.set_max_lifetime_retries.
      destruct (x <? transfer.max_retries_ c); reflexivity.
    + reflexivity.
Qed.

(** X7: the order of the two retry setters matters.  On a consistent
    client, a [max_retries] above the current lifetime budget is rejected
    when set first and accepted once the lifetime budget has been raised to
    it; a lifetime budget below the current [max_retries] (and at least 1)
    is rejected when set first and accepted once [max_retries] has been
    lowered to it. *)
Theorem X7_retry_setters_order (c : transfer.Client) (n : Z) :
  transfer_calls.retries_valid c ->
  (transfer.max_lifetime_retries_ c < n ->
   fst (transfer.set_max_retries c n) = INVALID_ARGUMENT
   /\ fst (transfer.set_max_lifetime_retries c n) = OK
   /\ fst (transfer.set_max_retries
             (snd (transfer.set_max_lifetime_retries c n)) n) = OK)
  /\ (1 <= n < transfer.max_retries_ c ->
      fst (transfer.set_max_lifetime_retries c n) = INVALID_ARGUMENT
      /\ fst (transfer.set_max_retries c n) = OK
      /\ fst (transfer.set_max_lifetime_retries
                (snd (transfer.set_max_retries c n)) n) = OK).
Proof.
  unfold transfer_calls.retries_valid. intros Hvalid.
  unfold transfer.set_max_retries, transfer.set_max_lifetime_retries.
  split; intros Hn.
  - destruct (Z.ltb_spec n 1); [lia |].
    destruct (Z.gtb_spec n (transfer.max_lifetime_retries_ c)); [| lia].
    destruct (Z.ltb_spec n (transfer.max_retries_ c)); [lia |].
    cbn. destruct (Z.ltb_spec n 1); [lia |].
    destruct (Z.gtb_spec n n); [lia |]. cbn. repeat split.
  - destruct (Z.ltb_spec n (transfer.max_retries_ c)); [| lia].
    destruct (Z.ltb_spec n 1); [lia |].
    destruct (Z.gtb_spec n (transfer.max_lifetime_retries_ c)); [lia |].
    cbn. destruct (Z.ltb_spec n n); [lia |]. repeat split.
Qed.

Lemma X7_witness_raise_and_lower :
  fst (transfer.set_max_retries example_client 2000) = INVALID_ARGUMENT
  /\ fst (transfer.set_max_retries
            (snd (transfer.set_max_lifetime_retries example_client 2000))
            2000) = OK
  /\ fst (transfer.set_max_lifetime_retries example_client 2)
     = INVALID_ARGUMENT
  /\ fst (transfer.set_max_lifetime_retries
            (snd (transfer.set_max_retries example_client 2)) 2) = OK.
Proof.
  assert (Hvalid : transfer_calls.retries_valid example_client)
    by (vm_compute; intuition discriminate).
  destruct (X7_retry_setters_order example_client 2000 Hvalid)
    as [Hraise _].
  destruct (X7_retry_setters_order example_client 2 Hvalid) as [_ Hlower].
  destruct Hraise as (R1 & _ & R3); [vm_compute; reflexivity |].
  destruct Hlower as (L1 & _ & L3); [vm_compute; intuition discriminate |].
  split; [exact R1 |]. split; [exact R3 |]. split; [exact L1 | exact L3].
Defined.

(** The ids of the assigned handles of a list, in order. *)
Lemma CancelTransfers_queue (handles : list transfer.TransferHandle) :
  forall (c : transfer.Client) (tt : transfer.TransferThread),
  fst (transfer_calls.CancelTransfers c tt handles) = c
  /\ transfer.work_queue (snd (transfer_calls.CancelTransfers c tt handles))
     = transfer.work_queue tt
       ++ map transfer.Event.CancelTransfer
            (filter (fun i => negb (i =? 0)) (map transfer.id handles))
  /\ transfer.max_chunk_size
       (snd (transfer_calls.CancelTransfers c tt handles))
     = transfer.max_chunk_size tt.
Proof.
  induction handles as [| h handles IH]; intros c tt.
  - cbn. rewrite app_nil_r. repeat split.
  - cbn [transfer_calls.CancelTransfers map filter].
    unfold transfer.CancelTransfer, transfer.is_unassigned,
      transfer.kUnassignedHandleId, transfer.id.
    destruct (transfer.id_ h =? 0) eqn:Hid; cbn [negb].
    + apply IH.
    + destruct (IH c (transfer.CancelClientTransfer tt (transfer.id_ h)))
        as (Hc & Hq & Hm).
      unfold transfer.id in Hq. rewrite Hc, Hq, Hm.
      cbn [transfer.CancelClientTransfer transfer.work_queue
             transfer.max_chunk_size map].
      rewrite <- app_assoc. repeat split.
Qed.

(** X8: cancelling a list of handles never changes the client, and adds to
    the transfer thread's queue one cancel event per assigned handle, in
    the order of the list, and nothing for the unassigned (id 0) ones. *)
Theorem X8_cancelling_several_handles (c : transfer.Client)
    (tt : transfer.TransferThread) (handles : list transfer.TransferHandle) :
  fst (transfer_calls.CancelTransfers c tt handles) = c
  /\ transfer.work_queue (snd (transfer_calls.CancelTransfers c tt handles))
     = transfer.work_queue tt
       ++ map transfer.Event.CancelTransfer
            (filter (fun i => negb (i =? 0)) (map transfer.id handles))
  /\ (Forall (fun h => transfer.is_unassigned h = true) handles ->
      transfer_calls.CancelTransfers c tt handles = (c, tt)).
Proof.
  destruct (CancelTransfers_queue handles c tt) as (Hc & Hq & _).
  split; [exact Hc |]. split; [exact Hq |].
  clear Hc Hq. revert c tt.
  induction handles as [| h handles IH]; intros c tt Hall.
  - reflexivity.
  - inversion Hall as [| ? ? Hh Hrest]; subst.
    cbn [transfer_calls.CancelTransfers]. unfold transfer.CancelTransfer.
    rewrite Hh. cbn [negb]. apply IH. exact Hrest.
Qed.

Lemma X8_witness_mixed_handles :
  transfer.work_queue
    (snd (transfer_calls.CancelTransfers example_client example_thread
            [ {| transfer.id_ := 7 |}; transfer.TransferHandle_default;
              {| transfer.id_ := 3 |} ]))
  = [transfer.Event.CancelTransfer 7; transfer.Event.CancelTransfer 3]
  /\ transfer_calls.CancelTransfers example_client example_thread
       [transfer.TransferHandle_default; transfer.TransferHandle_default]
     = (example_client, example_thread).
Proof.
  split.
  - destruct (X8_cancelling_several_handles example_client example_thread
                [ {| transfer.id_ := 7 |}; transfer.TransferHandle_default;
                  {| transfer.id_ := 3 |} ]) as (_ & Hq & _).
    exact Hq.
  - destruct (X8_cancelling_several_handles example_client example_thread
                [transfer.TransferHandle_default;
                 transfer.TransferHandle_default]) as (_ & _ & Hnoop).
    apply Hnoop. repeat constructor.
Defined.

(** X9: [Read] and [Write] called without a protocol version pass on the
    client's default version: the one given by the last
    [set_protocol_version] since construction, whatever other setters were
    called in between, and [kLatest] when there was none. *)
Theorem X9_Read_Write_use_the_default_version
    {Writer Reader CompletionFunc duration Outcome : Type}
    (Read_version :
       transfer.Client -> transfer.TransferThread -> Z -> Writer
       -> CompletionFunc -> transfer.ProtocolVersion -> duration -> duration
       -> Outcome)
    (Write_version :
       transfer.Client -> transfer.TransferThread -> Z -> Reader
       -> CompletionFunc -> transfer.ProtocolVersion -> duration -> duration
       -> Outcome)
    (kDefaultMaxClientRetries kDefaultMaxLifetimeRetries : Z)
    (channel_id max_bytes_to_receive extend_window_divisor : Z)
    (tt : transfer.TransferThread) (ops : list transfer_calls.ConfigOp)
    (resource_id : Z) (output : Writer) (input : Reader)
    (on_completion : CompletionFunc) (timeout initial_chunk_timeout : duration) :
  let c := transfer_calls.apply_all
             (transfer.Client_new kDefaultMaxClientRetries
                kDefaultMaxLifetimeRetries channel_id tt max_bytes_to_receive
                extend_window_divisor) ops in
  transfer_calls.Read Read_version c tt resource_id output on_completion
    timeout initial_chunk_timeout
  = Read_version c tt resource_id output on_completion
      (transfer_calls.last_version ops transfer.kLatest)
      timeout initial_chunk_timeout
  /\ transfer_calls.Write Write_version c tt resource_id input on_completion
       timeout initial_chunk_timeout
     = Write_version c tt resource_id input on_completion
         (transfer_calls.last_version ops transfer.kLatest)
         timeout initial_chunk_timeout.
Proof.
  cbv zeta. unfold transfer_calls.Read, transfer_calls.Write.
  pose proof (X6_setters_touch_only_their_field ops
                (transfer.Client_new kDefaultMaxClientRetries
                   kDefaultMaxLifetimeRetries channel_id tt
                   max_bytes_to_receive extend_window_divisor)) as H.
  cbv zeta in H. destruct H as (_ & _ & _ & _ & _ & _ & Hversion).
  rewrite Hversion. split; reflexivity.
Qed.

(** ** Further properties of Persistent<T> *)

Section PersistentMoreProperties.

Context {T : Type} (as_bytes : T -> list Z)
        (Crc16Ccitt_Calculate : list Z -> Z) (zeroed : T).

Let Crc' := persistent_ram.Crc as_bytes Crc16Ccitt_Calculate.
Let has_value' := persistent_ram.has_value as_bytes Crc16Ccitt_Calculate.
Let value' := persistent_ram.value as_bytes Crc16Ccitt_Calculate.

(** X10: [reset()] zeroes the contents and stores 0 as the tag.  After it
    [has_value()] is true exactly when the CRC16 of the zeroed contents is
    itself 0; when that CRC is not 0 the value is destroyed: [has_value()]
    is false and [value()] fails its assertion. *)
Theorem X10_reset_destroys_the_value (p : persistent_ram.Persistent T) :
  let p' := fst (persistent_ram.reset zeroed p) in
  persistent_ram.contents_ p' = zeroed
  /\ persistent_ram.crc_ p' = 0
  /\ fold_left persistent_ram.perform (snd (persistent_ram.reset zeroed p)) p
     = p'
  /\ (has_value' p' = true <-> Crc' zeroed = 0)
  /\ (Crc' zeroed <> 0 -> has_value' p' = false /\ value' p' = None).
Proof.
  cbv zeta. cbn [persistent_ram.reset fst snd fold_left persistent_ram.perform
                   persistent_ram.store_contents persistent_ram.store_crc
                   persistent_ram.contents_ persistent_ram.crc_].
  assert (Hiff : has_value'
                   {| persistent_ram.contents_ := zeroed;
                      persistent_ram.crc_ := 0 |} = true
                 <-> Crc' zeroed = 0).
  { unfold has_value', persistent_ram.has_value.
    cbn [persistent_ram.contents_ persistent_ram.crc_]. fold Crc'.
    rewrite Z.eqb_eq. split; intros H; symmetry; exact H. }
  repeat split; try apply Hiff.
  - destruct (has_value' _) eqn:Hv; [| reflexivity].
    exfalso. apply H. apply Hiff. reflexivity.
  - unfold value', persistent_ram.value. fold has_value'.
    destruct (has_value' _) eqn:Hv; [| reflexivity].
    exfalso. apply H. apply Hiff. reflexivity.
Qed.

(** X11: an assignment that is interrupted before its last access (the
    store of the tag) never leaves a wrong value readable.  Starting from a
    [Persistent] that holds a value, after any proper prefix of the
    accesses of [operator=(v)], [value()] either still returns the old
    value (nothing was written yet), or fails because [has_value()] is
    false, or returns [v]; and it can return [v] only if [v] has the same
    CRC16 as the old value. *)
Theorem X11_interrupted_assignment (p : persistent_ram.Persistent T) (v : T)
    (n : nat) (x : T) :
  has_value' p = true ->
  (n < length (snd (persistent_ram.assign as_bytes Crc16Ccitt_Calculate p v)))%nat ->
  value'
    (fold_left persistent_ram.perform
       (firstn n (snd (persistent_ram.assign as_bytes Crc16Ccitt_Calculate
                         p v))) p)
  = Some x ->
  (n = 0%nat /\ x = persistent_ram.contents_ p)
  \/ (x = v /\ Crc' v = Crc' (persistent_ram.contents_ p)).
Proof.
  intros Hp Hn. cbn [persistent_ram.assign snd length] in *.
  apply Z.eqb_eq in Hp. fold Crc' in Hp.
  destruct n as [| [| [| n]]]; [| | | cbn in Hn; lia];
    cbn [firstn fold_left persistent_ram.perform persistent_ram.store_contents
           persistent_ram.crc_];
    unfold value', persistent_ram.value, persistent_ram.has_value,
      persistent_ram.store_contents;
    cbn [persistent_ram.contents_ persistent_ram.crc_]; fold Crc'.
  - destruct (Z.eqb_spec (persistent_ram.crc_ p)
                (Crc' (persistent_ram.contents_ p))); [| discriminate].
    intros [= <-]. left. split; reflexivity.
  - destruct (Z.eqb_spec (persistent_ram.crc_ p) (Crc' v)) as [Heq |];
      [| discriminate].
    intros [= <-]. right. split; [reflexivity | congruence].
  - destruct (Z.eqb_spec (persistent_ram.crc_ p) (Crc' v)) as [Heq |];
      [| discriminate].
    intros [= <-]. right. split; [reflexivity | congruence].
Qed.

End PersistentMoreProperties.

Lemma X10_witness_uint32_reset :
  let p := fst (persistent_ram.assign persistent_ram.uint32_as_bytes
                  persistent_ram.crc16_ccitt
                  {| persistent_ram.contents_ := 0;
                     persistent_ram.crc_ := 0 |} 7) in
  persistent_ram.value persistent_ram.uint32_as_bytes
    persistent_ram.crc16_ccitt p = Some 7
  /\ persistent_ram.value persistent_ram.uint32_as_bytes
       persistent_ram.crc16_ccitt (fst (persistent_ram.reset 0 p)) = None.
Proof.
  cbv zeta. split; [vm_compute; reflexivity |].
  destruct (X10_reset_destroys_the_value persistent_ram.uint32_as_bytes
              persistent_ram.crc16_ccitt 0
              (fst (persistent_ram.assign persistent_ram.uint32_as_bytes
                      persistent_ram.crc16_ccitt
                      {| persistent_ram.contents_ := 0;
                         persistent_ram.crc_ := 0 |} 7)))
    as (_ & _ & _ & _ & Hdestroyed).
  apply Hdestroyed. vm_compute. discriminate.
Defined.

(** A [Persistent<uint32_t>] holding 7, and an assignment of 9 cut off after
    the contents were stored: the value is lost, not misread. *)
Lemma X11_witness_uint32_interrupted :
  let p := fst (persistent_ram.assign persistent_ram.uint32_as_bytes
                  persistent_ram.crc16_ccitt
                  {| persistent_ram.contents_ := 0;
                     persistent_ram.crc_ := 0 |} 7) in
  persistent_ram.value persistent_ram.uint32_as_bytes
    persistent_ram.crc16_ccitt
    (fold_left persistent_ram.perform
       (firstn 1 (snd (persistent_ram.assign persistent_ram.uint32_as_bytes
                         persistent_ram.crc16_ccitt p 9))) p)
  = None
  /\ (forall x,
        persistent_ram.value persistent_ram.uint32_as_bytes
          persistent_ram.crc16_ccitt
          (fold_left persistent_ram.perform
             (firstn 0 (snd (persistent_ram.assign
                               persistent_ram.uint32_as_bytes
                               persistent_ram.crc16_ccitt p 9))) p)
        = Some x -> x = 7).
Proof.
  cbv zeta. split; [vm_compute; reflexivity |].
  intros x Hx.
  destruct (X11_interrupted_assignment persistent_ram.uint32_as_bytes
              persistent_ram.crc16_ccitt
              (fst (persistent_ram.assign persistent_ram.uint32_as_bytes
                      persistent_ram.crc16_ccitt
                      {| persistent_ram.contents_ := 0;
                         persistent_ram.crc_ := 0 |} 7))
              9 0%nat x) as [[_ Hold] | [_ Hcrc]].
  - vm_compute. reflexivity.
  - cbn. lia.
  - exact Hx.
  - exact Hold.
  - vm_compute in Hcrc. discriminate Hcrc.
Defined.

(** ** The nanopb client calls *)

Section NanopbProperties.

Context {NanopbMethodSerde NanopbSerde OnCompleted OnNext Base Outcome : Type}
        (response : NanopbMethodSerde -> NanopbSerde)
        (DecodeToStructAndInvokeOnCompleted :
           list Z -> NanopbSerde -> option OnCompleted -> Status -> Outcome)
        (DecodeToStructAndInvokeOnNext :
           list Z -> NanopbSerde -> option OnNext -> Outcome)
        (moved_from_on_completed : option OnCompleted -> option OnCompleted)
        (moved_from_on_next : option OnNext -> option OnNext)
        (MoveUnaryResponseClientCallFrom MoveStreamResponseClientCallFrom :
           nanopb.BaseCall Base -> nanopb.BaseCall Base
           -> nanopb.BaseCall Base * nanopb.BaseCall Base).

(** X12: after [a = std::move(b)] on two distinct unary-response calls, a
    response delivered to [a] is decoded with the serde [b] had and handed
    to the user callback [b] had; the callback registered with [a]'s base
    captures [a] itself, so this holds in every later state of memory that
    leaves the object at [a] alone, whatever becomes of [b], and whatever
    the base class's own move did to the callback slot.  Calls at other
    addresses are untouched. *)
Theorem X12_unary_move_rebinds_the_callback
    (h : nanopb.UnaryHeap NanopbMethodSerde OnCompleted Base)
    (this other : Z)
    (t o : nanopb.NanopbUnaryResponseClientCall NanopbMethodSerde OnCompleted
             Base)
    (serde : NanopbMethodSerde) :
  this <> other -> h this = Some t -> h other = Some o ->
  nanopb.serde_ o = Some serde ->
  exists h',
    nanopb.unary_move_assign moved_from_on_completed
      MoveUnaryResponseClientCallFrom h this other = Some h'
    /\ (forall h'' payload status,
          h'' this = h' this ->
          nanopb.invoke_on_completed response
            DecodeToStructAndInvokeOnCompleted h'' this payload status
          = Some (DecodeToStructAndInvokeOnCompleted payload (response serde)
                    (nanopb.nanopb_on_completed_ o) status))
    /\ (forall x, x <> this -> x <> other -> h' x = h x).
Proof.
  intros Hne Ht Ho Hserde.
  assert (Hto : (this =? other) = false) by (apply Z.eqb_neq; exact Hne).
  assert (Hot : (other =? this) = false)
    by (apply Z.eqb_neq; intros ->; now apply Hne).
  unfold nanopb.unary_move_assign. rewrite Ht, Ho.
  destruct (MoveUnaryResponseClientCallFrom (nanopb.unary_base t)
              (nanopb.unary_base o)) as [tb ob].
  unfold nanopb.set_nanopb_on_completed_locked, nanopb.unary_upd.
  cbn beta zeta. rewrite !Z.eqb_refl, ?Hto, ?Hot. cbn beta iota zeta.
  cbn [nanopb.serde_ nanopb.nanopb_on_completed_ nanopb.unary_base].
  eexists. split; [reflexivity |]. split.
  - intros h'' payload status Hsame.
    unfold nanopb.invoke_on_completed. rewrite Hsame.
    cbn beta. rewrite !Z.eqb_refl.
    cbn [nanopb.unary_base nanopb.set_callback_locked nanopb.callback_].
    rewrite Hsame. cbn beta. rewrite !Z.eqb_refl.
    cbn [nanopb.serde_ nanopb.nanopb_on_completed_]. rewrite Hserde.
    reflexivity.
  - intros x Hx1 Hx2. cbn beta.
    apply Z.eqb_neq in Hx1, Hx2. rewrite Hx1, Hx2. reflexivity.
Qed.

(** X13: the same for the stream-response calls.  After [a = std::move(b)]
    on two distinct calls, a stream payload delivered to [a] is decoded with
    the serde [b] had and handed to the [on_next] callback [b] had, in
    every later state of memory that leaves the object at [a] alone; calls
    at other addresses are untouched. *)
Theorem X13_stream_move_rebinds_on_next
    (h : nanopb.StreamHeap NanopbMethodSerde OnNext Base)
    (this other : Z)
    (t o : nanopb.NanopbStreamResponseClientCall NanopbMethodSerde OnNext
             Base)
    (serde : NanopbMethodSerde) :
  this <> other -> h this = Some t -> h other = Some o ->
  nanopb.stream_serde_ o = Some serde ->
  exists h',
    nanopb.stream_move_assign moved_from_on_next
      MoveStreamResponseClientCallFrom h this other = Some h'
    /\ (forall h'' payload,
          h'' this = h' this ->
          nanopb.invoke_on_next response DecodeToStructAndInvokeOnNext
            h'' this payload
          = Some (DecodeToStructAndInvokeOnNext payload (response serde)
                    (nanopb.nanopb_on_next_ o)))
    /\ (forall x, x <> this -> x <> other -> h' x = h x).
Proof.
  intros Hne Ht Ho Hserde.
  assert (Hto : (this =? other) = false) by (apply Z.eqb_neq; exact Hne).
  assert (Hot : (other =? this) = false)
    by (apply Z.eqb_neq; intros ->; now apply Hne).
  unfold nanopb.stream_move_assign. rewrite Ht, Ho.
  destruct (MoveStreamResponseClientCallFrom (nanopb.stream_base t)
              (nanopb.stream_base o)) as [tb ob].
  unfold nanopb.set_nanopb_on_next_locked, nanopb.stream_upd.
  cbn beta zeta. rewrite !Z.eqb_refl, ?Hto, ?Hot. cbn beta iota zeta.
  cbn [nanopb.stream_serde_ nanopb.nanopb_on_next_ nanopb.stream_base].
  eexists. split; [reflexivity |]. split.
  - intros h'' payload Hsame.
    unfold nanopb.invoke_on_next. rewrite Hsame.
    cbn beta. rewrite !Z.eqb_refl.
    cbn [nanopb.stream_base nanopb.set_callback_locked nanopb.callback_].
    rewrite Hsame. cbn beta. rewrite !Z.eqb_refl.
    cbn [nanopb.stream_serde_ nanopb.nanopb_on_next_]. rewrite Hserde.
    reflexivity.
  - intros x Hx1 Hx2. cbn beta.
    apply Z.eqb_neq in Hx1, Hx2. rewrite Hx1, Hx2. reflexivity.
Qed.

End NanopbProperties.

(** Two unary calls at addresses 100 and 200; the base class's move hands
    the source's base, with its callback still capturing the source, to
    both.  The moved-to call at 100 answers with what the call at 200 held,
    also once the object at 200 is gone. *)
Lemma X12_witness_two_calls :
  let b := {| nanopb.unary_base :=
                {| nanopb.core := tt;
                   nanopb.callback_ := Some (nanopb.Lambda 200) |};
              nanopb.serde_ := Some 5;
              nanopb.nanopb_on_completed_ := Some 77 |} in
  let a := {| nanopb.unary_base :=
                {| nanopb.core := tt; nanopb.callback_ := None |};
              nanopb.serde_ := None;
              nanopb.nanopb_on_completed_ := None |} in
  let h := nanopb.unary_upd (nanopb.unary_upd (fun _ => None) 100 a) 200 b in
  exists h',
    nanopb.unary_move_assign (fun _ => None) (fun _ o => (o, o)) h 100 200
    = Some h'
    /\ nanopb.invoke_on_completed (fun s : Z => s)
         (fun payload s (f : option Z) st => (payload, s, f, st))
         (fun x => if x =? 200 then None else h' x) 100 [1; 2] OK
       = Some ([1; 2], 5, Some 77, OK).
Proof.
  cbv zeta.
  destruct (X12_unary_move_rebinds_the_callback (fun s : Z => s)
              (fun payload s (f : option Z) st => (payload, s, f, st))
              (fun _ => None) (fun _ o => (o, o))
              (nanopb.unary_upd
                 (nanopb.unary_upd (fun _ => None) 100
                    {| nanopb.unary_base :=
                         {| nanopb.core := tt; nanopb.callback_ := None |};
                       nanopb.serde_ := None;
                       nanopb.nanopb_on_completed_ := None |})
                 200
                 {| nanopb.unary_base :=
                      {| nanopb.core := tt;
                         nanopb.callback_ := Some (nanopb.Lambda 200) |};
                    nanopb.serde_ := Some 5;
                    nanopb.nanopb_on_completed_ := Some 77 |})
              100 200 _ _ 5 ltac:(discriminate) eq_refl eq_refl eq_refl)
    as (h' & Hmove & Hinvoke & _).
  exists h'. split; [exact Hmove |].
  apply Hinvoke. reflexivity.
Defined.

Lemma X13_witness_two_streams :
  let b := {| nanopb.stream_base :=
                {| nanopb.core := tt;
                   nanopb.callback_ := Some (nanopb.Lambda 200) |};
              nanopb.stream_serde_ := Some 5;
              nanopb.nanopb_on_next_ := Some 77 |} in
  let a := {| nanopb.stream_base :=
                {| nanopb.core := tt; nanopb.callback_ := None |};
              nanopb.stream_serde_ := None;
              nanopb.nanopb_on_next_ := None |} in
  let h := nanopb.stream_upd (nanopb.stream_upd (fun _ => None) 100 a) 200 b in
  exists h',
    nanopb.stream_move_assign (fun _ => None) (fun _ o => (o, o)) h 100 200
    = Some h'
    /\ nanopb.invoke_on_next (fun s : Z => s)
         (fun payload s (f : option Z) => (payload, s, f))
         (fun x => if x =? 200 then None else h' x) 100 [1; 2]
       = Some ([1; 2], 5, Some 77).
Proof.
  cbv zeta.
  destruct (X13_stream_move_rebinds_on_next (fun s : Z => s)
              (fun payload s (f : option Z) => (payload, s, f))
              (fun _ => None) (fun _ o => (o, o))
              (nanopb.stream_upd
                 (nanopb.stream_upd (fun _ => None) 100
                    {| nanopb.stream_base :=
                         {| nanopb.core := tt; nanopb.callback_ := None |};
                       nanopb.stream_serde_ := None;
                       nanopb.nanopb_on_next_ := None |})
                 200
                 {| nanopb.stream_base :=
                      {| nanopb.core := tt;
                         nanopb.callback_ := Some (nanopb.Lambda 200) |};
                    nanopb.stream_serde_ := Some 5;
                    nanopb.nanopb_on_next_ := Some 77 |})
              100 200 _ _ 5 ltac:(discriminate) eq_refl eq_refl eq_refl)
    as (h' & Hmove & Hinvoke & _).
  exists h'. split; [exact Hmove |].
  apply Hinvoke. reflexivity.
Defined.

(** X14: the four call classes agree with the kind of method they are
    constructed for.  A class derives from the stream-response base, and
    offers [set_on_next], exactly when its method has a server stream; it
    offers [Write] exactly when its method has a client stream; and only
    the unary receiver lacks [RequestCompletion], which the server-streaming
    [NanopbClientReader] offers although it has no client stream. *)
Theorem X14_call_classes_match_method_types (c : nanopb.CallClass) :
  (nanopb.base_of c = nanopb.StreamResponseBase
   <-> nanopb.HasServerStream (nanopb.method_type_of c) = true)
  /\ nanopb.has_set_on_next c
     = nanopb.HasServerStream (nanopb.method_type_of c)
  /\ nanopb.has_Write c = nanopb.HasClientStream (nanopb.method_type_of c)
  /\ (nanopb.has_RequestCompletion c = false
      <-> nanopb.method_type_of c = nanopb.kUnary)
  /\ (forall c', nanopb.method_type_of c' = nanopb.method_type_of c -> c' = c).
Proof.
  destruct c; cbn; repeat split; intros; try reflexivity; try discriminate;
    match goal with
    | c' : nanopb.CallClass |- _ => destruct c'; try reflexivity; discriminate
    end.
Qed.

Lemma X14_witness_client_reader :
  nanopb.has_Write nanopb.NanopbClientReader = false
  /\ nanopb.method_type_of nanopb.NanopbUnaryReceiver = nanopb.kUnary.
Proof.
  destruct (X14_call_classes_match_method_types nanopb.NanopbClientReader)
    as (_ & _ & Hwrite & _).
  destruct (X14_call_classes_match_method_types nanopb.NanopbUnaryReceiver)
    as (_ & _ & _ & Hunary & _).
  split; [exact Hwrite | apply Hunary; reflexivity].
Defined.
